(** * sttyl: a table-driven subset of stty

    A shallow embedding of [sttyl.c] and the properties of its
    attribute tables, option parser and renderer.

    Conventions of the embedding.
    - A C string is the Rocq [string] of its bytes before the terminating
      NUL; [strcmp (a, b) == 0] is [String.eqb a b] and [strlen] is
      [String.length].  Reading [s[0]] of the empty string yields the
      terminator, see [char_at_0].
    - [tcflag_t] words and [cc_t] bytes are integers in [Z]; the only
      operation that can leave the range of [tcflag_t], the complement
      [~flag], has its wrap-around written out in [tcflag_not].
    - The constants of [<termios.h>] and [<unistd.h>] are not part of the
      program: they are the fields of the class [termios_h], and
      [linux_glibc] instantiates them with the values of Linux/glibc on
      x86-64.
    - A function that prints, exits or talks to the terminal driver lives
      in the monad [M] over the process state [world]. *)

From Stdlib Require Import ZArith String Ascii List Bool Lia DecimalString.
From stdpp Require Import list.
Import ListNotations.

Local Open Scope string_scope.
Local Open Scope Z_scope.

(** ** The attribute record *)

(** [struct termios]: the four flag words, the control-character array and
    the two line-speed codes. *)
Record termios : Type := mk_termios {
  c_iflag : Z;
  c_oflag : Z;
  c_cflag : Z;
  c_lflag : Z;
  c_cc : list Z;
  c_ispeed : Z;
  c_ospeed : Z
}.

(** ** Platform constants *)

Class termios_h : Type := {
  (* flag bits *)
  ICRNL : Z; OPOST : Z; HUPCL : Z; ISIG : Z;
  ICANON : Z; ECHO : Z; ECHOE : Z; ECHOK : Z;
  (* subscripts of c_cc *)
  VEOF : Z; VEOL : Z; VERASE : Z; VINTR : Z;
  VKILL : Z; VQUIT : Z; VSUSP : Z;
  NCCS : Z;
  _POSIX_VDISABLE : Z;
  (* layout of struct termios *)
  tcflag_bits : Z;
  offsetof_c_iflag : Z; offsetof_c_oflag : Z;
  offsetof_c_cflag : Z; offsetof_c_lflag : Z;
  (* line speeds *)
  B0 : Z; B50 : Z; B75 : Z; B110 : Z; B134 : Z; B150 : Z; B200 : Z;
  B300 : Z; B600 : Z; B1200 : Z; B1800 : Z; B2400 : Z; B4800 : Z;
  B9600 : Z; B19200 : Z; B38400 : Z;
  cfgetospeed : termios -> Z
}.

(** Linux, glibc, x86-64 ([asm-generic/termbits.h]); [cfgetospeed] masks
    the speed bits [CBAUD | CBAUDEX] out of [c_cflag]. *)
Definition linux_glibc : termios_h := {|
  ICRNL := 256; OPOST := 1; HUPCL := 1024; ISIG := 1;
  ICANON := 2; ECHO := 8; ECHOE := 16; ECHOK := 32;
  VEOF := 4; VEOL := 11; VERASE := 2; VINTR := 0;
  VKILL := 3; VQUIT := 1; VSUSP := 10;
  NCCS := 32;
  _POSIX_VDISABLE := 0;
  tcflag_bits := 32;
  offsetof_c_iflag := 0; offsetof_c_oflag := 4;
  offsetof_c_cflag := 8; offsetof_c_lflag := 12;
  B0 := 0; B50 := 1; B75 := 2; B110 := 3; B134 := 4; B150 := 5; B200 := 6;
  B300 := 7; B600 := 8; B1200 := 9; B1800 := 10; B2400 := 11; B4800 := 12;
  B9600 := 13; B19200 := 14; B38400 := 15;
  cfgetospeed := fun info => Z.land (c_cflag info) 4111
|}.

(** ** The process and its surroundings *)

(** What one run of the program can observe and change: the attributes the
    terminal driver holds for file descriptor 0, the answers of the system
    calls, the two output streams, the file-scope variable [progname], and
    the argument of every [tcsetattr] call made so far. *)
Record world : Type := mk_world {
  tty : termios;
  tcgetattr_ok : bool;
  tcsetattr_ok : bool;
  winsize : option (Z * Z);
  errno_text : string;
  progname : string;
  stdout : string;
  stderr : string;
  applied : list termios
}.

Definition with_tty (t : termios) (w : world) : world :=
  mk_world t (tcgetattr_ok w) (tcsetattr_ok w) (winsize w) (errno_text w)
           (progname w) (stdout w) (stderr w) (applied w).

Definition with_progname (p : string) (w : world) : world :=
  mk_world (tty w) (tcgetattr_ok w) (tcsetattr_ok w) (winsize w)
           (errno_text w) p (stdout w) (stderr w) (applied w).

Definition with_stdout (s : string) (w : world) : world :=
  mk_world (tty w) (tcgetattr_ok w) (tcsetattr_ok w) (winsize w)
           (errno_text w) (progname w) s (stderr w) (applied w).

Definition with_stderr (s : string) (w : world) : world :=
  mk_world (tty w) (tcgetattr_ok w) (tcsetattr_ok w) (winsize w)
           (errno_text w) (progname w) (stdout w) s (applied w).

Definition with_applied (l : list termios) (w : world) : world :=
  mk_world (tty w) (tcgetattr_ok w) (tcsetattr_ok w) (winsize w)
           (errno_text w) (progname w) (stdout w) (stderr w) l.

(** The three ways a computation can end. *)
Inductive result (A : Type) : Type :=
| Ret (a : A) (w : world)        (* the function returned [a] *)
| Exit (status : Z) (w : world)  (* [exit (status)] was called *)
| Undefined.                     (* C gives the step no meaning *)

Arguments Ret {A} a w.
Arguments Exit {A} status w.
Arguments Undefined {A}.

Definition M (A : Type) : Type := world -> result A.

Definition ret {A} (a : A) : M A := fun w => Ret a w.

Definition bind {A B} (m : M A) (k : A -> M B) : M B :=
  fun w =>
    match m w with
    | Ret a w' => k a w'
    | Exit st w' => Exit st w'
    | Undefined => Undefined
    end.

Notation "x <- m ;; k" := (bind m (fun x => k))
  (at level 100, m at next level, right associativity).
Notation "m ;;; k" := (bind m (fun _ => k))
  (at level 100, right associativity).

Definition exit {A} (status : Z) : M A := fun w => Exit status w.

Definition undefined {A} : M A := fun _ => Undefined.

(** An access that C defines only inside the object. *)
Definition defined {A} (o : option A) : M A :=
  match o with
  | Some a => ret a
  | None => undefined
  end.

Definition printf (s : string) : M unit :=
  fun w => Ret tt (with_stdout (stdout w ++ s) w).

Definition fprintf_stderr (s : string) : M unit :=
  fun w => Ret tt (with_stderr (stderr w ++ s) w).

(** [perror (msg)]: the message, a colon, the text of [errno]. *)
Definition perror (msg : string) : M unit :=
  fun w => Ret tt (with_stderr (stderr w ++ msg ++ ": " ++ errno_text w
                                  ++ String "010" "") w).

Definition get_progname : M string := fun w => Ret (progname w) w.

Definition set_progname (p : string) : M unit :=
  fun w => Ret tt (with_progname p w).

(** ** Characters and formatting *)

Definition nl : string := String "010" "".

(** The value of a [char] as an [int]; [char] is signed here, so bytes
    from 128 on are negative. *)
Definition int_of_char (c : ascii) : Z :=
  let n := Z.of_N (N_of_ascii c) in
  if n <? 128 then n else n - 256.

(** [s[0]]: the first byte, or the terminating NUL of the empty string. *)
Definition char_at_0 (s : string) : Z :=
  match s with
  | EmptyString => 0
  | String c _ => int_of_char c
  end.

(** Conversion of an [int] to [cc_t] or to the [unsigned char] that [%c]
    prints. *)
Definition to_uchar (v : Z) : Z := v mod 256.

Definition fmt_c (v : Z) : string :=
  String (ascii_of_N (Z.to_N (to_uchar v))) "".

Definition fmt_d (v : Z) : string := NilZero.string_of_int (Z.to_int v).

(** [<ctype.h>] in the "C" locale, which a program that never calls
    [setlocale] runs in. *)
Definition isascii (c : Z) : bool := Z.land c (Z.lnot 127) =? 0.

Definition iscntrl (c : Z) : bool := ((0 <=? c) && (c <? 32)) || (c =? 127).

(** ** Constants of the program *)

Definition CHAR_MASK : Z := 64.
Definition ERROR : Z := 1.
Definition ON : Z := 1.
Definition OFF : Z := 0.

(** ** Tables *)

Record table_t : Type := mk_table_t {
  flag : Z;
  name : string;
  type : string;
  mode : Z
}.

Record ctable_t : Type := mk_ctable_t {
  c_value : Z;
  c_name : string
}.

(** ** The program *)

Section Sttyl.

Context {platform : termios_h}.

(** The tables without their terminating all-NULL entry: a scan that stops
    at [name == NULL] is a traversal of the list. *)
Definition table : list table_t := [
  mk_table_t ICRNL  "icrnl"  "iflag" offsetof_c_iflag;
  mk_table_t OPOST  "opost"  "oflag" offsetof_c_oflag;
  mk_table_t HUPCL  "hupcl"  "cflag" offsetof_c_cflag;
  mk_table_t ISIG   "isig"   "lflag" offsetof_c_lflag;
  mk_table_t ICANON "icanon" "lflag" offsetof_c_lflag;
  mk_table_t ECHO   "echo"   "lflag" offsetof_c_lflag;
  mk_table_t ECHOE  "echoe"  "lflag" offsetof_c_lflag;
  mk_table_t ECHOK  "echok"  "lflag" offsetof_c_lflag
].

Definition cchars : list ctable_t := [
  mk_ctable_t VEOF   "eof";
  mk_ctable_t VEOL   "eol";
  mk_ctable_t VERASE "erase";
  mk_ctable_t VINTR  "intr";
  mk_ctable_t VKILL  "kill";
  mk_ctable_t VQUIT  "quit";
  mk_ctable_t VSUSP  "susp"
].

(** *** Access to the record *)

(** [*(tcflag_t * )((char * ) info + off)]: the flag word that starts at
    byte [off] of the record; any other offset is outside C. *)
Definition tcflag_load (info : termios) (off : Z) : option Z :=
  if off =? offsetof_c_iflag then Some (c_iflag info)
  else if off =? offsetof_c_oflag then Some (c_oflag info)
  else if off =? offsetof_c_cflag then Some (c_cflag info)
  else if off =? offsetof_c_lflag then Some (c_lflag info)
  else None.

Definition tcflag_store (info : termios) (off : Z) (v : Z) : option termios :=
  let '(mk_termios i o c l cc isp osp) := info in
  if off =? offsetof_c_iflag then Some (mk_termios v o c l cc isp osp)
  else if off =? offsetof_c_oflag then Some (mk_termios i v c l cc isp osp)
  else if off =? offsetof_c_cflag then Some (mk_termios i o v l cc isp osp)
  else if off =? offsetof_c_lflag then Some (mk_termios i o c v cc isp osp)
  else None.

(** [~x] on [tcflag_t]. *)
Definition tcflag_not (x : Z) : Z := Z.lnot x mod 2 ^ tcflag_bits.

(** [info->c_cc[i]], defined inside the array only. *)
Definition cc_load (info : termios) (i : Z) : option Z :=
  if 0 <=? i then c_cc info !! Z.to_nat i else None.

Definition cc_store (info : termios) (i : Z) (v : Z) : option termios :=
  let '(mk_termios ifl ofl cfl lfl cc isp osp) := info in
  if (0 <=? i) && (i <? Z.of_nat (length cc))
  then Some (mk_termios ifl ofl cfl lfl (<[Z.to_nat i := v]> cc) isp osp)
  else None.

(** *** Helper functions *)

Definition fatal {A} (err arg : string) : M A :=
  p <- get_progname ;;
  fprintf_stderr (p ++ ": " ++ err ++ " `" ++ arg ++ "'" ++ nl) ;;;
  exit 1.

Fixpoint lookup_from (tbl : list table_t) (opt : string) : option table_t :=
  match tbl with
  | [] => None
  | e :: tbl' =>
      if String.eqb opt (name e) then Some e else lookup_from tbl' opt
  end.

Definition lookup (opt : string) : option table_t :=
  lookup_from table opt.

(** *** Option processing *)

Fixpoint valid_char_opt_from (tbl : list ctable_t) (arg : string)
  : option ctable_t :=
  match tbl with
  | [] => None
  | e :: tbl' =>
      if String.eqb arg (c_name e) then Some e
      else valid_char_opt_from tbl' arg
  end.

(** [Some c] stands for the answer YES with [*c] set, [None] for NO. *)
Definition valid_char_opt (arg : string) : option ctable_t :=
  valid_char_opt_from cchars arg.

Definition change_char (c : ctable_t) (value : string) (info : termios)
  : M termios :=
  if (1 <? Z.of_nat (String.length value)) || negb (isascii (char_at_0 value))
  then fatal "invalid integer argument" value
  else defined (cc_store info (c_value c) (to_uchar (char_at_0 value))).

(** The last statement of [get_option]: the word at [entry->mode] gets the
    bits of [entry->flag] set or cleared. *)
Definition set_mode (entry : table_t) (status : Z) (info : termios)
  : option termios :=
  match tcflag_load info (mode entry) with
  | None => None
  | Some w =>
      if status =? ON
      then tcflag_store info (mode entry) (Z.lor w (flag entry))
      else tcflag_store info (mode entry) (Z.land w (tcflag_not (flag entry)))
  end.

Definition get_option (opt : string) (info : termios) : M termios :=
  let original := opt in
  let '(status, opt) :=
    match opt with
    | String "-"%char rest => (OFF, rest)
    | _ => (ON, opt)
    end in
  match lookup opt with
  | None => fatal "illegal argument" original
  | Some entry => defined (set_mode entry status info)
  end.

(** *** Terminal functions *)

Definition get_term_size : M (Z * Z) :=
  fun w =>
    match winsize w with
    | Some sz => Ret sz w
    | None =>
        (fprintf_stderr ("could not get window size" ++ nl) ;;; exit 1) w
    end.

Definition get_settings : M termios :=
  fun w =>
    if tcgetattr_ok w then Ret (tty w) w
    else (perror "cannot get tty info for stdin" ;;; exit 1) w.

Definition set_settings (info : termios) : M Z :=
  fun w =>
    let w := with_applied (app (applied w) [info]) w in
    if tcsetattr_ok w then Ret 0 (with_tty info w)
    else (perror "Setting attributes" ;;; exit 1) w.

Definition getbaud (speed : Z) : M Z :=
  if speed =? B0 then ret 0
  else if speed =? B50 then ret 50
  else if speed =? B75 then ret 75
  else if speed =? B110 then ret 110
  else if speed =? B134 then ret 134
  else if speed =? B150 then ret 150
  else if speed =? B200 then ret 200
  else if speed =? B300 then ret 300
  else if speed =? B600 then ret 600
  else if speed =? B1200 then ret 1200
  else if speed =? B1800 then ret 1800
  else if speed =? B2400 then ret 2400
  else if speed =? B4800 then ret 4800
  else if speed =? B9600 then ret 9600
  else if speed =? B19200 then ret 19200
  else if speed =? B38400 then ret 38400
  else perror "failed to get baud speed" ;;; exit 1.

(** *** Display *)

(** The loop of [show_charset] from entry [i] on; [tbl] are the entries
    [cchars[i]], [cchars[i+1]], ... *)
Fixpoint show_charset_from (i : Z) (tbl : list ctable_t) (info : termios)
  : M unit :=
  match tbl with
  | [] => ret tt
  | e :: tbl' =>
      (if i =? 0 then printf "cchars: " else ret tt) ;;;
      value <- defined (cc_load info (c_value e)) ;;
      (if value =? _POSIX_VDISABLE
       then printf (c_name e ++ " = <undef>; ")
       else if iscntrl value
       then printf (c_name e ++ " = ^" ++ fmt_c (Z.lxor value CHAR_MASK)
                      ++ "; ")
       else printf (c_name e ++ " = " ++ fmt_c value ++ "; ")) ;;;
      show_charset_from (i + 1) tbl' info
  end.

Definition show_charset (info : termios) : M unit :=
  show_charset_from 0 cchars info.

(** The loop of [show_flagset]; [ty] is the local [type], [None] for
    NULL.  It returns the final [i]. *)
Fixpoint show_flagset_from (i : Z) (tbl : list table_t) (ty : option string)
  (info : termios) : M Z :=
  match tbl with
  | [] => ret i
  | e :: tbl' =>
      let fresh :=
        match ty with
        | None => true
        | Some t => negb (String.eqb t (type e))
        end in
      let ty := if fresh then Some (type e) else ty in
      (if fresh then printf (nl ++ type e ++ "s: ") else ret tt) ;;;
      w <- defined (tcflag_load info (mode e)) ;;
      (if Z.land w (flag e) =? flag e
       then printf (name e ++ " ")
       else printf ("-" ++ name e ++ " ")) ;;;
      show_flagset_from (i + 1) tbl' ty info
  end.

Definition show_flagset (info : termios) : M unit :=
  i <- show_flagset_from 0 table None info ;;
  if 0 <? i then printf nl else ret tt.

Definition show_tty (info : termios) : M unit :=
  w <- get_term_size ;;
  baud <- getbaud (cfgetospeed info) ;;
  printf ("speed " ++ fmt_d baud ++ " baud; ") ;;;
  printf ("rows " ++ fmt_d (fst w) ++ "; ") ;;;
  printf ("cols " ++ fmt_d (snd w) ++ ";" ++ nl) ;;;
  show_charset info ;;;
  show_flagset info.

(** *** main *)

(** The [while] loop of [main] over the arguments after the program
    name. *)
Fixpoint main_loop (av : list string) (info : termios) : M termios :=
  match av with
  | [] => ret info
  | arg :: rest =>
      match valid_char_opt arg with
      | Some c =>
          match rest with
          | value :: rest' =>
              info' <- change_char c value info ;;
              main_loop rest' info'
          | [] => fatal "missing argument to" arg
          end
      | None =>
          info' <- get_option arg info ;;
          main_loop rest info'
      end
  end.

(** [main] with [av[0]] and the remaining arguments apart; the value it
    returns is the exit status of the process. *)
Definition main (av0 : string) (args : list string) : M Z :=
  ttyinfo <- get_settings ;;
  set_progname av0 ;;;
  match args with
  | [] => show_tty ttyinfo ;;; ret 0
  | _ :: _ =>
      ttyinfo <- main_loop args ttyinfo ;;
      set_settings ttyinfo
  end.

(** ** Vocabulary of the specification *)

(** The two name spaces. *)
Definition is_cchar_name (T : string) : Prop := In T (map c_name cchars).
Definition is_flag_name (N : string) : Prop := In N (map name table).

(** "Strip a single leading negation marker if present (remember on/off
    intent)": the intent and what is left of the token. *)
Definition strip_negation (T : string) : Z * string :=
  match T with
  | String c rest => if Ascii.eqb c "-" then (OFF, rest) else (ON, T)
  | EmptyString => (ON, T)
  end.

(** "Masking the word with the bit-mask and testing for exact equality
    with the mask." *)
Definition flag_is_on (word mask : Z) : bool := Z.land word mask =? mask.

(** The state of a flag as displayed: the bare name when on, the name
    after the negation marker when off. *)
Definition rendered_flag (e : table_t) (info : termios) : string :=
  match tcflag_load info (mode e) with
  | Some word => if flag_is_on word (flag e) then name e else "-" ++ name e
  | None => ""
  end.

(** "[<undef>] if the stored byte equals the disabled sentinel; [^X] where
    X is the byte XORed with 64 if the byte is a control character;
    otherwise the literal character." *)
Definition rendered_cc (b : Z) : string :=
  if b =? _POSIX_VDISABLE then "<undef>"
  else if iscntrl b then "^" ++ fmt_c (Z.lxor b 64)
  else fmt_c b.

(** The rendering of one control-character descriptor. *)
Definition rendered_cchar (c : ctable_t) (info : termios) : string :=
  match cc_load info (c_value c) with
  | Some b => c_name c ++ " = " ++ rendered_cc b ++ "; "
  | None => ""
  end.

(** "A single 7-bit-ASCII character": the value token the specification
    asks for behind a control-character name. *)
Definition single_ascii_character (value : string) : Prop :=
  exists ch, value = String ch "" /\ (N_of_ascii ch < 128)%N.

(** The line that [fatal] leaves on the error stream. *)
Definition diagnostic (prog err arg : string) : string :=
  prog ++ ": " ++ err ++ " `" ++ arg ++ "'" ++ nl.

(** The three failures of token processing, for the arguments that are
    still to be read: the kind of failure as the text of its message, and
    the offending token. *)
Inductive token_failure : list string -> string -> string -> Prop :=
| MissingArgument T :
    is_cchar_name T ->
    token_failure [T] "missing argument to" T
| InvalidCharArgument T value rest :
    is_cchar_name T ->
    (1 < String.length value)%nat \/ isascii (char_at_0 value) = false ->
    token_failure (T :: value :: rest) "invalid integer argument" value
| IllegalOption T rest :
    ~ is_cchar_name T ->
    ~ is_flag_name (snd (strip_negation T)) ->
    token_failure (T :: rest) "illegal argument" T.

(** A computation that returns [a] after printing [text] and does nothing
    else. *)
Definition prints {A} (m : M A) (a : A) (text : string) : Prop :=
  forall w, m w = Ret a (with_stdout (stdout w ++ text) w).

(** A computation whose only effect is text on the output stream, the
    same text in every world, unless it is undefined in every world. *)
Definition uniform {A} (m : M A) : Prop :=
  (exists a text, prints m a text) \/ (forall w, m w = Undefined).

(** The flag blocks: "each new group starts with a newline then a header
    [<group>s: ]; then for each descriptor in that group, in table order,
    a space-separated token".  [group] is the tag of the block that is
    open, if any. *)
Fixpoint flagset_text (tbl : list table_t) (group : option string)
  (info : termios) : string :=
  match tbl with
  | [] => ""
  | F :: tbl' =>
      let header :=
        match group with
        | Some g => if String.eqb g (type F) then "" else nl ++ type F ++ "s: "
        | None => nl ++ type F ++ "s: "
        end in
      header ++ rendered_flag F info ++ " "
      ++ flagset_text tbl' (Some (type F)) info
  end.

(** The case labels of [getbaud] with the values they return. *)
Definition speed_codes : list (Z * Z) := [
  (B0, 0); (B50, 50); (B75, 75); (B110, 110); (B134, 134); (B150, 150);
  (B200, 200); (B300, 300); (B600, 600); (B1200, 1200); (B1800, 1800);
  (B2400, 2400); (B4800, 4800); (B9600, 9600); (B19200, 19200);
  (B38400, 38400)
].

(** Every subscript of the table [cchars] lies inside the array [c_cc] of
    the record. *)
Definition cchars_in_range (info : termios) : Prop :=
  Forall (fun c => 0 <= c_value c < Z.of_nat (length (c_cc info))) cchars.

End Sttyl.

(** ** Sample inputs *)

(** The attributes of a freshly opened Linux terminal: [ICRNL | IXON],
    [OPOST | ONLCR], [B38400 | CS8 | CREAD], the usual local flags, and
    the default control characters. *)
Definition sane_termios : termios :=
  mk_termios 1280 5 191 35387
    [3; 28; 127; 21; 4; 0; 1; 0; 17; 19; 26; 0; 18; 15; 23; 22;
     0; 0; 0; 0; 0; 0; 0; 0; 0; 0; 0; 0; 0; 0; 0; 0]
    15 15.

Definition sane_world : world :=
  mk_world sane_termios true true (Some (24, 80)) "Success" "" "" "" [].

(** Another world with a window of the same size: a different device, a
    failing driver, and text already on both streams. *)
Definition busy_world : world :=
  mk_world (mk_termios 0 0 0 0 [] 0 0) false false (Some (24, 80))
           "Input/output error" "a.out" "earlier output" "earlier error"
           [sane_termios].

(** A world whose output is no terminal: the window size cannot be
    read. *)
Definition blind_world : world :=
  mk_world sane_termios true true None "Inappropriate ioctl for device"
           "" "" "" [].

(** A record at 57600 baud, a speed [getbaud] has no case for. *)
Definition fast_termios : termios :=
  mk_termios 1280 5 4097 35387 (c_cc sane_termios) 4097 4097.

(** A world in which the terminal cannot be read. *)
Definition deaf_world : world :=
  mk_world sane_termios false true (Some (24, 80))
           "Inappropriate ioctl for device" "" "" "" [].

Definition icanon_entry : table_t :=
  @mk_table_t (@ICANON linux_glibc) "icanon" "lflag"
              (@offsetof_c_lflag linux_glibc).

Definition kill_entry : ctable_t :=
  @mk_ctable_t (@VKILL linux_glibc) "kill".

Definition echo_entry : table_t :=
  @mk_table_t (@ECHO linux_glibc) "echo" "lflag"
              (@offsetof_c_lflag linux_glibc).

Definition erase_entry : ctable_t :=
  @mk_ctable_t (@VERASE linux_glibc) "erase".

(** * Properties *)

Section Properties.

Context {platform : termios_h}.

(** ** Bits *)

Lemma testbit_tcflag_not (x i : Z) :
  0 <= i ->
  Z.testbit (tcflag_not x) i = true -> Z.testbit x i = false.
Proof.
  intros Hi. unfold tcflag_not.
  destruct (Z.lt_ge_cases tcflag_bits 0) as [Hneg | Hpos].
  - rewrite (Z.pow_neg_r 2 tcflag_bits Hneg), Z.mod_0_r.
    rewrite Z.lnot_spec by lia. intros H.
    now apply negb_true_iff.
  - destruct (Z.lt_ge_cases i tcflag_bits) as [Hlow | Hhigh].
    + rewrite Z.mod_pow2_bits_low by lia.
      rewrite Z.lnot_spec by lia. intros H.
      now apply negb_true_iff.
    + rewrite Z.mod_pow2_bits_high by lia. discriminate.
Qed.

Lemma land_tcflag_not_self (m : Z) : Z.land m (tcflag_not m) = 0.
Proof.
  apply Z.bits_inj'. intros i Hi.
  rewrite Z.land_spec, Z.bits_0.
  destruct (Z.testbit (tcflag_not m) i) eqn:E.
  - rewrite (testbit_tcflag_not m i Hi E). reflexivity.
  - apply andb_false_r.
Qed.

Lemma lor_then_land_not (w m : Z) :
  Z.land (Z.lor w m) (tcflag_not m) = Z.land w (tcflag_not m).
Proof.
  rewrite Z.land_lor_distr_l, land_tcflag_not_self. apply Z.lor_0_r.
Qed.

Lemma testbit_above_width (w i : Z) :
  0 <= w < 2 ^ tcflag_bits -> tcflag_bits <= i -> Z.testbit w i = false.
Proof.
  intros Hw Hi.
  assert (0 <= tcflag_bits).
  { destruct (Z.lt_ge_cases tcflag_bits 0) as [Hneg | ]; [ | assumption ].
    rewrite (Z.pow_neg_r 2 tcflag_bits Hneg) in Hw. lia. }
  rewrite <- (Z.mod_small w (2 ^ tcflag_bits)) by assumption.
  apply Z.mod_pow2_bits_high. lia.
Qed.

Lemma land_tcflag_not_fixed (w m : Z) :
  0 <= w < 2 ^ tcflag_bits ->
  (Z.land w (tcflag_not m) = w <-> Z.land w m = 0).
Proof.
  intros Hw. split; intros H.
  - rewrite <- H, <- Z.land_assoc, (Z.land_comm (tcflag_not m)),
      land_tcflag_not_self. apply Z.land_0_r.
  - apply Z.bits_inj'. intros i Hi.
    rewrite Z.land_spec.
    destruct (Z.testbit w i) eqn:Ew; [ | reflexivity ].
    simpl. unfold tcflag_not.
    destruct (Z.lt_ge_cases i tcflag_bits) as [Hlow | Hhigh].
    + rewrite Z.mod_pow2_bits_low by lia.
      rewrite Z.lnot_spec by lia.
      assert (Hb : Z.testbit (Z.land w m) i = false)
        by (rewrite H; apply Z.bits_0).
      rewrite Z.land_spec, Ew in Hb. simpl in Hb. now rewrite Hb.
    + rewrite (testbit_above_width w i Hw Hhigh) in Ew. discriminate.
Qed.

(** Exact equality with the mask says that every bit of the mask is set
    in the word, however many bits the mask has. *)
Lemma flag_is_on_bits (word mask : Z) :
  flag_is_on word mask = true <->
  (forall i, 0 <= i -> Z.testbit mask i = true -> Z.testbit word i = true).
Proof.
  unfold flag_is_on. rewrite Z.eqb_eq. split.
  - intros H i Hi Hm. rewrite <- H, Z.land_spec in Hm.
    now apply andb_true_iff in Hm.
  - intros H. apply Z.bits_inj'. intros i Hi.
    rewrite Z.land_spec.
    destruct (Z.testbit mask i) eqn:Em.
    + now rewrite (H i Hi Em).
    + apply andb_false_r.
Qed.

(** ** The flag words of the record *)

Ltac by_offset off :=
  destruct (off =? offsetof_c_iflag);
  [ | destruct (off =? offsetof_c_oflag);
      [ | destruct (off =? offsetof_c_cflag);
          [ | destruct (off =? offsetof_c_lflag) ] ] ].

Lemma tcflag_store_defined (info : termios) (off w v : Z) :
  tcflag_load info off = Some w ->
  exists info', tcflag_store info off v = Some info'.
Proof.
  destruct info. unfold tcflag_load, tcflag_store.
  by_offset off; intros H; try discriminate; eauto.
Qed.

Lemma tcflag_load_store (info info' : termios) (off v : Z) :
  tcflag_store info off v = Some info' ->
  tcflag_load info' off = Some v.
Proof.
  destruct info. unfold tcflag_load, tcflag_store.
  by_offset off; intros H; inversion H; reflexivity.
Qed.

Lemma tcflag_store_store (info info' : termios) (off v v' : Z) :
  tcflag_store info off v = Some info' ->
  tcflag_store info' off v' = tcflag_store info off v'.
Proof.
  destruct info. unfold tcflag_store.
  by_offset off; intros H; inversion H; reflexivity.
Qed.

Lemma tcflag_store_c_cc (info info' : termios) (off v : Z) :
  tcflag_store info off v = Some info' -> c_cc info' = c_cc info.
Proof.
  destruct info. unfold tcflag_store.
  by_offset off; intros H; inversion H; reflexivity.
Qed.

Lemma set_mode_defined (F : table_t) (status : Z) (info : termios) (w : Z) :
  tcflag_load info (mode F) = Some w ->
  exists info',
    set_mode F status info = Some info' /\
    tcflag_load info' (mode F) =
      Some (if status =? ON then Z.lor w (flag F)
            else Z.land w (tcflag_not (flag F))).
Proof.
  intros Hload. unfold set_mode. rewrite Hload.
  destruct (status =? ON).
  - destruct (tcflag_store_defined info (mode F) w (Z.lor w (flag F)) Hload)
      as [info' H].
    exists info'. split; [ assumption | ].
    now apply tcflag_load_store with info.
  - destruct (tcflag_store_defined info (mode F) w
                (Z.land w (tcflag_not (flag F))) Hload) as [info' H].
    exists info'. split; [ assumption | ].
    now apply tcflag_load_store with info.
Qed.

(** ** Turning a flag on and off *)

(** C10.  Setting a flag is idempotent: for every descriptor [F], every
    intent [status] and every record, applying the assignment of
    [get_option] a second time gives the record the first application
    gave (and is undefined exactly when the first is). *)
Theorem set_mode_idempotent (F : table_t) (status : Z) (info : termios) :
  set_mode F status info ≫= set_mode F status = set_mode F status info.
Proof.
  destruct (set_mode F status info) as [info1 | ] eqn:E1; [ | reflexivity ].
  simpl. revert E1. unfold set_mode.
  destruct (tcflag_load info (mode F)) as [w | ] eqn:Hload;
    [ | discriminate ].
  destruct (status =? ON); intros E1;
    rewrite (tcflag_load_store _ _ _ _ E1);
    rewrite (tcflag_store_store _ _ _ _ _ E1);
    rewrite <- E1; f_equal.
  - rewrite <- Z.lor_assoc. now rewrite Z.lor_diag.
  - rewrite <- Z.land_assoc. now rewrite Z.land_diag.
Qed.

(** C3, as amended.  For every descriptor [F] whose offset addresses a
    flag word of the record, turning [F] on and then off succeeds and
    leaves that word equal to its previous value with the bits of [F]'s
    mask cleared; for a word within the width of [tcflag_t] this is the
    previous value exactly when no bit of the mask was set before. *)
Theorem set_mode_on_then_off (F : table_t) (info : termios) (word : Z) :
  tcflag_load info (mode F) = Some word ->
  exists info1 info2,
    set_mode F ON info = Some info1 /\
    set_mode F OFF info1 = Some info2 /\
    tcflag_load info2 (mode F) = Some (Z.land word (tcflag_not (flag F))) /\
    (0 <= word < 2 ^ tcflag_bits ->
     (tcflag_load info2 (mode F) = Some word <-> Z.land word (flag F) = 0)).
Proof.
  intros Hload.
  destruct (set_mode_defined F ON info word Hload) as (info1 & H1 & L1).
  destruct (set_mode_defined F OFF info1 _ L1) as (info2 & H2 & L2).
  change (ON =? ON) with true in L1, L2. change (OFF =? ON) with false in L2.
  simpl in L1, L2. rewrite lor_then_land_not in L2.
  exists info1, info2.
  split; [ assumption | ]. split; [ assumption | ]. split; [ assumption | ].
  intros Hrange. rewrite L2. split.
  - intros H. inversion H as [H']. rewrite H'.
    now apply land_tcflag_not_fixed in H'.
  - intros H. f_equal. now apply land_tcflag_not_fixed.
Qed.

(** ** Characters *)

Lemma isascii_range (c : Z) : isascii c = true <-> 0 <= c < 128.
Proof.
  unfold isascii. rewrite Z.eqb_eq.
  change 127 with (Z.ones 7).
  rewrite <- Z.ldiff_land, Z.ldiff_ones_r by lia.
  rewrite Z.shiftl_mul_pow2, Z.shiftr_div_pow2 by lia.
  change (2 ^ 7) with 128.
  split; intros H.
  - assert (c / 128 = 0) as Hq by lia.
    apply Z.div_small_iff in Hq; lia.
  - rewrite Z.div_small by lia. reflexivity.
Qed.

Lemma int_of_char_ascii (ch : ascii) :
  (N_of_ascii ch < 128)%N -> int_of_char ch = Z.of_N (N_of_ascii ch).
Proof.
  intros H. unfold int_of_char.
  destruct (Z.ltb_spec (Z.of_N (N_of_ascii ch)) 128); lia.
Qed.

Lemma to_uchar_ascii (c : Z) : isascii c = true -> to_uchar c = c.
Proof.
  intros H. apply isascii_range in H. unfold to_uchar.
  now apply Z.mod_small; lia.
Qed.

(** ** The control-character array *)

Lemma cc_store_defined (info : termios) (i v : Z) :
  0 <= i < Z.of_nat (length (c_cc info)) ->
  cc_store info i v =
    Some (mk_termios (c_iflag info) (c_oflag info) (c_cflag info)
            (c_lflag info) (<[Z.to_nat i := v]> (c_cc info))
            (c_ispeed info) (c_ospeed info)).
Proof.
  destruct info as [ifl ofl cfl lfl cc isp osp]. simpl. intros H.
  destruct (Z.leb_spec 0 i); [ | lia ].
  destruct (Z.ltb_spec i (Z.of_nat (length cc))); [ | lia ].
  reflexivity.
Qed.

Lemma cc_load_insert_eq (info info' : termios) (i v : Z) :
  0 <= i < Z.of_nat (length (c_cc info)) ->
  c_cc info' = <[Z.to_nat i := v]> (c_cc info) ->
  cc_load info' i = Some v.
Proof.
  intros H E. unfold cc_load. rewrite E.
  destruct (Z.leb_spec 0 i); [ | lia ].
  apply list_lookup_insert_eq. lia.
Qed.

Lemma cc_load_insert_ne (info info' : termios) (i j v : Z) :
  0 <= i ->
  j <> i ->
  c_cc info' = <[Z.to_nat i := v]> (c_cc info) ->
  cc_load info' j = cc_load info j.
Proof.
  intros H Hne E. unfold cc_load. rewrite E.
  destruct (Z.leb_spec 0 j); [ | reflexivity ].
  apply list_lookup_insert_ne. lia.
Qed.

(** ** Diagnostics *)

Lemma fatal_exits {A} (err arg : string) (w : world) :
  @fatal A err arg w =
    Exit 1 (with_stderr (stderr w ++ diagnostic (progname w) err arg) w).
Proof. reflexivity. Qed.

(** ** Setting a control character *)

Lemma change_char_rejects (c : ctable_t) (value : string) (info : termios)
  (w : world) :
  (1 < String.length value)%nat \/ isascii (char_at_0 value) = false ->
  change_char c value info w =
    Exit 1 (with_stderr
              (stderr w
               ++ diagnostic (progname w) "invalid integer argument" value)
              w).
Proof.
  unfold change_char. intros [Hlen | Hasc].
  - destruct (Z.ltb_spec 1 (Z.of_nat (String.length value))); [ | lia ].
    simpl. apply fatal_exits.
  - rewrite Hasc. rewrite orb_true_r. apply fatal_exits.
Qed.

Lemma change_char_writes (c : ctable_t) (value : string) (info : termios)
  (w : world) :
  (String.length value <= 1)%nat ->
  isascii (char_at_0 value) = true ->
  0 <= c_value c < Z.of_nat (length (c_cc info)) ->
  change_char c value info w =
    Ret (mk_termios (c_iflag info) (c_oflag info) (c_cflag info)
           (c_lflag info)
           (<[Z.to_nat (c_value c) := char_at_0 value]> (c_cc info))
           (c_ispeed info) (c_ospeed info)) w.
Proof.
  unfold change_char. intros Hlen Hasc Hrange.
  destruct (Z.ltb_spec 1 (Z.of_nat (String.length value))); [ lia | ].
  rewrite Hasc. simpl.
  now rewrite (to_uchar_ascii _ Hasc), (cc_store_defined _ _ _ Hrange).
Qed.

(** C2, as amended.  [change_char] fails with the diagnostic "invalid
    integer argument" exactly when the value token is longer than one
    character or its first byte is not 7-bit ASCII.  Every other value
    token, the empty one included, is accepted: its first byte, which for
    the empty token is the terminating NUL, is written into
    [c_cc[c->c_value]]. *)
Theorem change_char_accepts (c : ctable_t) (value : string) (info : termios)
  (w : world) :
  ((1 < String.length value)%nat \/ isascii (char_at_0 value) = false ->
   change_char c value info w =
     Exit 1 (with_stderr
               (stderr w
                ++ diagnostic (progname w) "invalid integer argument" value)
               w))
  /\
  ((String.length value <= 1)%nat ->
   isascii (char_at_0 value) = true ->
   0 <= c_value c < Z.of_nat (length (c_cc info)) ->
   exists info',
     change_char c value info w = Ret info' w /\
     c_cc info' = <[Z.to_nat (c_value c) := char_at_0 value]> (c_cc info) /\
     cc_load info' (c_value c) = Some (char_at_0 value)).
Proof.
  split.
  - apply change_char_rejects.
  - intros Hlen Hasc Hrange.
    rewrite (change_char_writes c value info w Hlen Hasc Hrange).
    eexists. split; [ reflexivity | ]. split; [ reflexivity | ].
    now apply cc_load_insert_eq with info.
Qed.

(** C8.  For every descriptor [C] whose subscript lies inside the array,
    every 7-bit ASCII character [ch] and every record: [change_char] with
    the one-character token [ch] succeeds, the slot of [C] then reads
    [ch], and every other slot, every flag word and both line speeds are
    what they were. *)
Theorem change_char_frame (C : ctable_t) (ch : ascii) (info : termios)
  (w : world) :
  (N_of_ascii ch < 128)%N ->
  0 <= c_value C < Z.of_nat (length (c_cc info)) ->
  exists info',
    change_char C (String ch "") info w = Ret info' w /\
    cc_load info' (c_value C) = Some (Z.of_N (N_of_ascii ch)) /\
    (forall j, j <> c_value C -> cc_load info' j = cc_load info j) /\
    length (c_cc info') = length (c_cc info) /\
    c_iflag info' = c_iflag info /\
    c_oflag info' = c_oflag info /\
    c_cflag info' = c_cflag info /\
    c_lflag info' = c_lflag info /\
    (forall off, tcflag_load info' off = tcflag_load info off) /\
    c_ispeed info' = c_ispeed info /\
    c_ospeed info' = c_ospeed info.
Proof.
  intros Hch Hrange.
  assert (Hasc : isascii (char_at_0 (String ch "")) = true).
  { simpl. rewrite (int_of_char_ascii ch Hch). apply isascii_range. lia. }
  rewrite (change_char_writes C (String ch "") info w (le_n 1) Hasc Hrange).
  simpl char_at_0. rewrite (int_of_char_ascii ch Hch).
  eexists. split; [ reflexivity | ].
  split; [ now apply cc_load_insert_eq with info | ].
  split.
  { intros j Hj.
    apply cc_load_insert_ne with (c_value C) (Z.of_N (N_of_ascii ch));
      [ lia | assumption | reflexivity ]. }
  split; [ apply length_insert | ].
  repeat split; reflexivity.
Qed.

(** ** Lookup *)

Lemma lookup_from_Some (tbl : list table_t) (N : string) (e : table_t) :
  lookup_from tbl N = Some e -> In e tbl /\ name e = N.
Proof.
  induction tbl as [ | e0 tbl IH ]; simpl; [ discriminate | ].
  destruct (String.eqb_spec N (name e0)) as [Heq | Hne].
  - intros H. inversion H. subst e0. auto.
  - intros H. destruct (IH H). auto.
Qed.

Lemma lookup_from_None (tbl : list table_t) (N : string) :
  lookup_from tbl N = None <-> ~ In N (map name tbl).
Proof.
  induction tbl as [ | e0 tbl IH ]; simpl.
  - split; [ intros _ [] | reflexivity ].
  - destruct (String.eqb_spec N (name e0)) as [Heq | Hne].
    + split; [ discriminate | ]. intros H. exfalso. apply H. now left.
    + rewrite IH. split.
      * intros H [Heq | Hin]; [ now apply Hne | now apply H ].
      * intros H Hin. apply H. now right.
Qed.

Lemma lookup_flag_name (N : string) :
  is_flag_name N -> exists F, lookup N = Some F /\ In F table /\ name F = N.
Proof.
  intros H. unfold lookup.
  destruct (lookup_from table N) as [F | ] eqn:E.
  - exists F. split; [ reflexivity | now apply lookup_from_Some ].
  - apply lookup_from_None in E. contradiction.
Qed.

Lemma valid_char_opt_from_Some (tbl : list ctable_t) (T : string)
  (c : ctable_t) :
  valid_char_opt_from tbl T = Some c -> In c tbl /\ c_name c = T.
Proof.
  induction tbl as [ | e0 tbl IH ]; simpl; [ discriminate | ].
  destruct (String.eqb_spec T (c_name e0)) as [Heq | Hne].
  - intros H. inversion H. subst e0. auto.
  - intros H. destruct (IH H). auto.
Qed.

Lemma valid_char_opt_from_None (tbl : list ctable_t) (T : string) :
  valid_char_opt_from tbl T = None <-> ~ In T (map c_name tbl).
Proof.
  induction tbl as [ | e0 tbl IH ]; simpl.
  - split; [ intros _ [] | reflexivity ].
  - destruct (String.eqb_spec T (c_name e0)) as [Heq | Hne].
    + split; [ discriminate | ]. intros H. exfalso. apply H. now left.
    + rewrite IH. split.
      * intros H [Heq | Hin]; [ now apply Hne | now apply H ].
      * intros H Hin. apply H. now right.
Qed.

Lemma valid_char_opt_name (T : string) :
  is_cchar_name T ->
  exists c, valid_char_opt T = Some c /\ In c cchars /\ c_name c = T.
Proof.
  intros H. unfold valid_char_opt.
  destruct (valid_char_opt_from cchars T) as [c | ] eqn:E.
  - exists c. split; [ reflexivity | now apply valid_char_opt_from_Some ].
  - apply valid_char_opt_from_None in E. contradiction.
Qed.

Lemma valid_char_opt_other (T : string) :
  ~ is_cchar_name T -> valid_char_opt T = None.
Proof. intros H. now apply valid_char_opt_from_None. Qed.

(** ** One flag option *)

(** [get_option] through the vocabulary of the specification. *)
Lemma get_option_strip (T : string) (info : termios) :
  get_option T info =
    match lookup (snd (strip_negation T)) with
    | None => fatal "illegal argument" T
    | Some F => defined (set_mode F (fst (strip_negation T)) info)
    end.
Proof.
  destruct T as [ | c rest ]; [ reflexivity | ].
  destruct c as [[] [] [] [] [] [] [] []]; reflexivity.
Qed.

(** ** The argument loop *)

Lemma change_char_world (c : ctable_t) (value : string) (info info' : termios)
  (w w' : world) :
  change_char c value info w = Ret info' w' -> w' = w.
Proof.
  unfold change_char.
  destruct (_ || _).
  - rewrite fatal_exits. discriminate.
  - destruct (cc_store info (c_value c) _); simpl.
    + intros H. now inversion H.
    + discriminate.
Qed.

Lemma get_option_world (T : string) (info info' : termios) (w w' : world) :
  get_option T info w = Ret info' w' -> w' = w.
Proof.
  rewrite get_option_strip.
  destruct (lookup _) as [F | ].
  - destruct (set_mode F _ info); simpl.
    + intros H. now inversion H.
    + discriminate.
  - rewrite fatal_exits. discriminate.
Qed.

(** Induction that follows the loop: an iteration reads one argument or
    two. *)
Lemma args_ind (P : list string -> Prop) :
  P [] ->
  (forall T rest,
      P rest ->
      (forall value rest', rest = value :: rest' -> P rest') ->
      P (T :: rest)) ->
  forall av, P av.
Proof.
  intros Hnil Hstep av.
  enough (P av /\ (forall value rest', av = value :: rest' -> P rest'))
    by tauto.
  induction av as [ | T rest [IH1 IH2] ].
  - split; [ assumption | discriminate ].
  - split.
    + now apply Hstep.
    + intros value rest' E. now inversion E; subst.
Qed.

Lemma main_loop_world (av : list string) :
  forall info info' w w',
    main_loop av info w = Ret info' w' -> w' = w.
Proof.
  induction av as [ | T rest IH1 IH2 ] using args_ind; intros info info' w w'.
  - simpl. intros H. now inversion H.
  - simpl. destruct (valid_char_opt T) as [c | ].
    + destruct rest as [ | value rest' ].
      * rewrite fatal_exits. discriminate.
      * unfold bind.
        destruct (change_char c value info w) as [i1 w1 | | ] eqn:E;
          try discriminate.
        apply change_char_world in E. subst w1.
        now apply (IH2 value rest' eq_refl).
    + unfold bind.
      destruct (get_option T info w) as [i1 w1 | | ] eqn:E;
        try discriminate.
      apply get_option_world in E. subst w1. now apply IH1.
Qed.

(** Arguments that were read without a failure leave the loop where it
    would be had it started behind them. *)
Lemma main_loop_app (pre suf : list string) :
  forall info info1 w w1,
    main_loop pre info w = Ret info1 w1 ->
    main_loop (pre ++ suf)%list info w = main_loop suf info1 w1.
Proof.
  induction pre as [ | T rest IH1 IH2 ] using args_ind;
    intros info info1 w w1.
  - simpl. intros H. now inversion H.
  - simpl. destruct (valid_char_opt T) as [c | ].
    + destruct rest as [ | value rest' ].
      * rewrite fatal_exits. discriminate.
      * simpl. unfold bind.
        destruct (change_char c value info w) as [i1 w2 | | ];
          try discriminate.
        now apply (IH2 value rest' eq_refl).
    + unfold bind.
      destruct (get_option T info w) as [i1 w2 | | ]; try discriminate.
      now apply IH1.
Qed.

Lemma token_failure_exits (suf : list string) (err arg : string)
  (info : termios) (w : world) :
  token_failure suf err arg ->
  main_loop suf info w =
    Exit 1 (with_stderr (stderr w ++ diagnostic (progname w) err arg) w).
Proof.
  intros [ T HT | T value rest HT Hbad | T rest HT HN ].
  - destruct (valid_char_opt_name T HT) as (c & Hc & _).
    simpl. rewrite Hc. apply fatal_exits.
  - destruct (valid_char_opt_name T HT) as (c & Hc & _).
    simpl. rewrite Hc. unfold bind.
    now rewrite (change_char_rejects c value info w Hbad).
  - simpl. rewrite (valid_char_opt_other T HT). unfold bind.
    rewrite get_option_strip.
    apply lookup_from_None in HN. unfold lookup. rewrite HN.
    now rewrite fatal_exits.
Qed.

(** The three failures are the only way out of the loop: a run of the
    loop that ends through [exit] has read some arguments without a
    failure and then met one of them. *)
Lemma main_loop_exit_inv (av : list string) :
  forall info w st w',
    main_loop av info w = Exit st w' ->
    exists pre suf err arg info1,
      av = (pre ++ suf)%list /\
      main_loop pre info w = Ret info1 w /\
      token_failure suf err arg.
Proof.
  induction av as [ | T rest IH1 IH2 ] using args_ind; intros info w st w'.
  - discriminate.
  - simpl. destruct (valid_char_opt T) as [c | ] eqn:Hc.
    + assert (HT : is_cchar_name T).
      { apply valid_char_opt_from_Some in Hc. destruct Hc as [Hin <-].
        now apply in_map. }
      destruct rest as [ | value rest' ].
      * intros _. exists [], [T], "missing argument to", T, info.
        split; [ reflexivity | ]. split; [ reflexivity | ].
        now apply MissingArgument.
      * unfold bind.
        destruct (change_char c value info w) as [i1 w1 | st1 w1 | ] eqn:E;
          [ | | discriminate ].
        -- pose proof (change_char_world _ _ _ _ _ _ E). subst w1.
           intros H.
           destruct (IH2 value rest' eq_refl _ _ _ _ H)
             as (pre & suf & err & arg & info1 & -> & Hpre & Hfail).
           exists (T :: value :: pre), suf, err, arg, info1.
           split; [ reflexivity | ]. split; [ | assumption ].
           simpl. rewrite Hc. unfold bind. now rewrite E.
        -- intros _.
           exists [], (T :: value :: rest'), "invalid integer argument",
             value, info.
           split; [ reflexivity | ]. split; [ reflexivity | ].
           apply InvalidCharArgument; [ assumption | ].
           revert E. unfold change_char.
           destruct (1 <? Z.of_nat (String.length value)) eqn:Hlen.
           ++ intros _. left. apply Z.ltb_lt in Hlen. lia.
           ++ destruct (isascii (char_at_0 value)); [ | now right ].
              simpl. destruct (cc_store info (c_value c) _); discriminate.
    + assert (HT : ~ is_cchar_name T)
        by now apply valid_char_opt_from_None.
      unfold bind.
      destruct (get_option T info w) as [i1 w1 | st1 w1 | ] eqn:E;
        [ | | discriminate ].
      * pose proof (get_option_world _ _ _ _ _ E). subst w1.
        intros H.
        destruct (IH1 _ _ _ _ H)
          as (pre & suf & err & arg & info1 & -> & Hpre & Hfail).
        exists (T :: pre), suf, err, arg, info1.
        split; [ reflexivity | ]. split; [ | assumption ].
        simpl. rewrite (valid_char_opt_other T HT). unfold bind.
        now rewrite E.
      * intros _.
        exists [], (T :: rest), "illegal argument", T, info.
        split; [ reflexivity | ]. split; [ reflexivity | ].
        apply IllegalOption; [ assumption | ].
        revert E. rewrite get_option_strip. unfold lookup.
        destruct (lookup_from table (snd (strip_negation T))) as [F | ] eqn:EF.
        -- destruct (set_mode F _ info); discriminate.
        -- intros _. now apply lookup_from_None.
Qed.

(** ** The parser *)

(** C4.  A token [T] that names a control character is read as a
    control-character directive, whatever the flag table holds: without a
    following token the run ends with "missing argument to" [T]; with one,
    [change_char] receives it as the value on the descriptor of [T], and
    the loop continues behind the two tokens, so the value is never looked
    up as an option. *)
Theorem cchar_directive (T : string) (info : termios) (w : world) :
  is_cchar_name T ->
  exists c,
    In c cchars /\ c_name c = T /\
    main_loop [T] info w =
      Exit 1 (with_stderr
                (stderr w
                 ++ diagnostic (progname w) "missing argument to" T) w) /\
    forall value rest,
      main_loop (T :: value :: rest) info w =
        (info' <- change_char c value info ;; main_loop rest info') w.
Proof.
  intros HT. destruct (valid_char_opt_name T HT) as (c & Hc & Hin & Hname).
  exists c. split; [ assumption | ]. split; [ assumption | ]. split.
  - simpl. rewrite Hc. apply fatal_exits.
  - intros value rest. simpl. now rewrite Hc.
Qed.

(** C5.  A token [T] that names no control character loses at most one
    leading negation marker.  If what is left names no flag, the run ends
    with "illegal argument" and the whole of [T]; if it names the flag
    [F], the bits of [F] are set when no marker was stripped and cleared
    when one was, and the loop continues behind this one token. *)
Theorem flag_directive (T : string) (rest : list string) (info : termios)
  (w : world) :
  ~ is_cchar_name T ->
  (~ is_flag_name (snd (strip_negation T)) ->
   main_loop (T :: rest) info w =
     Exit 1 (with_stderr
               (stderr w ++ diagnostic (progname w) "illegal argument" T) w))
  /\
  (is_flag_name (snd (strip_negation T)) ->
   exists F,
     In F table /\ name F = snd (strip_negation T) /\
     main_loop (T :: rest) info w =
       (info' <- defined (set_mode F (fst (strip_negation T)) info) ;;
        main_loop rest info') w).
Proof.
  intros HT. split.
  - intros HN. apply token_failure_exits. now apply IllegalOption.
  - intros HN.
    destruct (lookup_flag_name _ HN) as (F & HF & Hin & Hname).
    exists F. split; [ assumption | ]. split; [ assumption | ].
    simpl. rewrite (valid_char_opt_other T HT).
    unfold bind. now rewrite get_option_strip, HF.
Qed.

(** The values that [change_char] rejects are the value tokens that are
    not a single 7-bit-ASCII character, the empty token excepted. *)
Lemma rejected_value_iff (value : string) :
  (1 < String.length value)%nat \/ isascii (char_at_0 value) = false <->
  value <> "" /\ ~ single_ascii_character value.
Proof.
  split.
  - intros Hbad. split.
    + intros ->. destruct Hbad as [Hlen | Hasc];
        [ simpl in Hlen; lia | discriminate ].
    + intros (ch & -> & Hch). destruct Hbad as [Hlen | Hasc].
      * simpl in Hlen. lia.
      * simpl in Hasc. rewrite (int_of_char_ascii ch Hch) in Hasc.
        assert (isascii (Z.of_N (N_of_ascii ch)) = true)
          by (apply isascii_range; lia).
        congruence.
  - intros [Hne Hnot].
    destruct value as [ | ch rest ]; [ contradiction | ].
    destruct rest as [ | ch' rest ]; [ | left; simpl; lia ].
    right. simpl.
    destruct (isascii (int_of_char ch)) eqn:Hasc; [ | reflexivity ].
    exfalso. apply Hnot. exists ch. split; [ reflexivity | ].
    apply isascii_range in Hasc. unfold int_of_char in Hasc.
    destruct (Z.ltb_spec (Z.of_N (N_of_ascii ch)) 128); [ lia | ].
    pose proof (N_ascii_bounded ch). lia.
Qed.


(** ** Text on the output stream *)

Lemma append_nil_r (s : string) : s ++ "" = s.
Proof. induction s as [ | c s IH ]; simpl; [ | rewrite IH ]; reflexivity. Qed.

Lemma append_assoc (s t u : string) : (s ++ t) ++ u = s ++ t ++ u.
Proof. induction s as [ | c s IH ]; simpl; [ | rewrite IH ]; reflexivity. Qed.

Lemma prints_ret {A} (a : A) : prints (ret a) a "".
Proof. intros [t g s z e p o r l]. unfold ret, with_stdout. simpl.
       now rewrite append_nil_r. Qed.

Lemma prints_printf (s : string) : prints (printf s) tt s.
Proof. intros w. reflexivity. Qed.

Lemma prints_bind {A B} (m : M A) (k : A -> M B) (a : A) (b : B)
  (t1 t2 : string) :
  prints m a t1 -> prints (k a) b t2 -> prints (bind m k) b (t1 ++ t2).
Proof.
  intros Hm Hk w. unfold bind. rewrite Hm, Hk.
  unfold with_stdout. simpl. now rewrite append_assoc.
Qed.

Lemma prints_defined {A} (o : option A) (a : A) :
  o = Some a -> prints (defined o) a "".
Proof. intros ->. apply prints_ret. Qed.

Lemma prints_text {A} (m : M A) (a : A) (t t' : string) :
  prints m a t -> t = t' -> prints m a t'.
Proof. now intros H <-. Qed.

Lemma uniform_prints {A} (m : M A) (a : A) (t : string) :
  prints m a t -> uniform m.
Proof. intros H. left. eauto. Qed.

Lemma uniform_bind {A B} (m : M A) (k : A -> M B) :
  uniform m -> (forall a, uniform (k a)) -> uniform (bind m k).
Proof.
  intros [(a & t1 & Hm) | Hm] Hk.
  - destruct (Hk a) as [(b & t2 & Hka) | Hka].
    + left. exists b, (t1 ++ t2). now apply prints_bind with a.
    + right. intros w. unfold bind. now rewrite Hm, Hka.
  - right. intros w. unfold bind. now rewrite Hm.
Qed.

Lemma uniform_defined {A} (o : option A) : uniform (defined o).
Proof.
  destruct o as [a | ].
  - left. exists a, "". apply prints_ret.
  - right. reflexivity.
Qed.

(** ** The control-character block *)

Lemma cc_load_in_range (info : termios) (i : Z) :
  0 <= i < Z.of_nat (length (c_cc info)) ->
  exists b, cc_load info i = Some b.
Proof.
  intros H. unfold cc_load.
  destruct (Z.leb_spec 0 i); [ | lia ].
  apply lookup_lt_is_Some. lia.
Qed.

Lemma show_charset_from_prints (tbl : list ctable_t) (info : termios) :
  Forall (fun c => 0 <= c_value c < Z.of_nat (length (c_cc info))) tbl ->
  forall i,
    0 <= i ->
    prints (show_charset_from i tbl info) tt
      ((if i =? 0 then match tbl with [] => "" | _ :: _ => "cchars: " end
        else "")
       ++ fold_right String.append ""
            (map (fun c => rendered_cchar c info) tbl)).
Proof.
  induction 1 as [ | e tbl He Htbl IH ]; intros i Hi.
  - simpl. destruct (i =? 0); apply prints_ret.
  - destruct (cc_load_in_range info _ He) as [b Hb].
    simpl show_charset_from. simpl map. simpl fold_right.
    apply prints_bind with tt.
    { destruct (i =? 0); [ apply prints_printf | apply prints_ret ]. }
    apply prints_text with ("" ++ rendered_cchar e info
      ++ fold_right String.append ""
           (map (fun c => rendered_cchar c info) tbl));
      [ | reflexivity ].
    apply prints_bind with b; [ now apply prints_defined | ].
    apply prints_bind with tt.
    + unfold rendered_cchar, rendered_cc. rewrite Hb.
      destruct (b =? _POSIX_VDISABLE); [ apply prints_printf | ].
      destruct (iscntrl b); apply prints_printf.
    + specialize (IH (i + 1) ltac:(lia)).
      destruct (Z.eqb_spec (i + 1) 0); [ lia | ]. exact IH.
Qed.

(** C7.  When the subscripts of the table lie inside [c_cc],
    [show_charset] prints the header and then, for every descriptor in
    table order, [<name> = <rendering>; ]: [<undef>] for the disabled
    sentinel, else [^X] with X the byte XORed with 64 for a control
    character, else the character itself.  On a platform whose sentinel is
    not 0x7F, an erase byte of 0x7F is rendered [erase = ^?; ]. *)
Theorem show_charset_renders (info : termios) :
  cchars_in_range info ->
  prints (show_charset info) tt
    ("cchars: "
     ++ fold_right String.append ""
          (map (fun c => rendered_cchar c info) cchars))
  /\
  (forall c, In c cchars ->
     exists b,
       cc_load info (c_value c) = Some b /\
       rendered_cchar c info =
         c_name c ++ " = "
         ++ (if b =? _POSIX_VDISABLE then "<undef>"
             else if iscntrl b then "^" ++ fmt_c (Z.lxor b 64)
             else fmt_c b)
         ++ "; ")
  /\
  (_POSIX_VDISABLE <> 127 ->
   cc_load info VERASE = Some 127 ->
   rendered_cchar (mk_ctable_t VERASE "erase") info = "erase = ^?; ").
Proof.
  intros Hrange. split; [ | split ].
  - exact (show_charset_from_prints cchars info Hrange 0 (Z.le_refl 0)).
  - intros c Hc.
    unfold cchars_in_range in Hrange. rewrite List.Forall_forall in Hrange.
    destruct (cc_load_in_range info _ (Hrange c Hc)) as [b Hb].
    exists b. split; [ assumption | ].
    unfold rendered_cchar. rewrite Hb. reflexivity.
  - intros Hsentinel Herase.
    unfold rendered_cchar, rendered_cc. simpl c_value. rewrite Herase.
    destruct (Z.eqb_spec 127 _POSIX_VDISABLE); [ congruence | ].
    reflexivity.
Qed.

(** ** The flag blocks *)

Lemma tcflag_load_table (info : termios) (F : table_t) :
  In F table -> exists word, tcflag_load info (mode F) = Some word.
Proof.
  intros HF. simpl in HF.
  repeat (destruct HF as [HF | HF]; [ subst F | ]); try contradiction;
    unfold tcflag_load; simpl mode;
    repeat match goal with
           | |- context [ ?a =? ?b ] => destruct (Z.eqb_spec a b)
           end;
    eauto; congruence.
Qed.

Lemma show_flagset_from_prints (tbl : list table_t) (info : termios) :
  (forall F, In F tbl -> exists word, tcflag_load info (mode F) = Some word) ->
  forall i ty,
    prints (show_flagset_from i tbl ty info) (i + Z.of_nat (length tbl))
      (flagset_text tbl ty info).
Proof.
  induction tbl as [ | e tbl IH ]; intros Hdef i ty.
  - simpl. rewrite Z.add_0_r. apply prints_ret.
  - destruct (Hdef e (or_introl eq_refl)) as [word Hword].
    assert (Htl : forall F, In F tbl ->
                    exists word, tcflag_load info (mode F) = Some word)
      by (intros F HF; apply Hdef; now right).
    specialize (IH Htl (i + 1)).
    replace (i + Z.of_nat (length (e :: tbl)))
      with (i + 1 + Z.of_nat (length tbl))
      by (simpl length; lia).
    simpl show_flagset_from. simpl flagset_text.
    assert (Hty :
      (if match ty with
          | Some t => negb (String.eqb t (type e))
          | None => true
          end
       then Some (type e) else ty) = Some (type e)).
    { destruct ty as [g | ]; [ | reflexivity ].
      destruct (String.eqb_spec g (type e)); simpl; congruence. }
    rewrite Hty.
    apply prints_bind with tt.
    { destruct ty as [g | ]; [ | apply prints_printf ].
      destruct (String.eqb g (type e)); simpl;
        [ apply prints_ret | apply prints_printf ]. }
    apply prints_text with
      ("" ++ (rendered_flag e info ++ " ")
          ++ flagset_text tbl (Some (type e)) info);
      [ | simpl; apply append_assoc ].
    apply prints_bind with word; [ now apply prints_defined | ].
    apply prints_bind with tt; [ | apply IH ].
    unfold rendered_flag, flag_is_on. rewrite Hword.
    destruct (Z.land word (flag e) =? flag e); apply prints_printf.
Qed.

(** C6.  [show_flagset] prints, under the headers of the four groups, one
    token for every flag name [N] of the table: with [F] the descriptor of
    [N] and [word] the flag word at [F]'s offset, the token is the bare
    name when [word & mask == mask] and the name behind the negation
    marker otherwise; and the test holds exactly when every bit of the
    mask, one or many, is set in the word. *)
Theorem show_flagset_renders (info : termios) :
  let r := fun N =>
             match lookup N with
             | Some F => rendered_flag F info
             | None => ""
             end in
  prints (show_flagset info) tt
    (nl ++ "iflags: " ++ r "icrnl" ++ " "
     ++ nl ++ "oflags: " ++ r "opost" ++ " "
     ++ nl ++ "cflags: " ++ r "hupcl" ++ " "
     ++ nl ++ "lflags: " ++ r "isig" ++ " " ++ r "icanon" ++ " "
     ++ r "echo" ++ " " ++ r "echoe" ++ " " ++ r "echok" ++ " "
     ++ nl)
  /\
  (forall N F,
     lookup N = Some F ->
     exists word,
       tcflag_load info (mode F) = Some word /\
       r N = (if Z.land word (flag F) =? flag F then N else "-" ++ N) /\
       ((Z.land word (flag F) =? flag F) = true <->
        (forall i, 0 <= i ->
           Z.testbit (flag F) i = true -> Z.testbit word i = true))).
Proof.
  intros r. split.
  - unfold show_flagset.
    apply prints_text with (flagset_text table None info ++ nl);
      [ | unfold r; simpl; repeat (rewrite append_assoc; simpl);
        reflexivity ].
    apply prints_bind with (0 + Z.of_nat (length table)).
    + apply show_flagset_from_prints. apply tcflag_load_table.
    + apply prints_printf.
  - intros N F HF. unfold r. rewrite HF.
    destruct (lookup_from_Some table N F HF) as [Hin Hname].
    destruct (tcflag_load_table info F Hin) as [word Hword].
    exists word. split; [ assumption | ]. split.
    + unfold rendered_flag, flag_is_on. rewrite Hword, Hname. reflexivity.
    + apply flag_is_on_bits.
Qed.

(** ** The whole display *)

Lemma show_charset_from_uniform (tbl : list ctable_t) (info : termios) :
  forall i, uniform (show_charset_from i tbl info).
Proof.
  induction tbl as [ | e tbl IH ]; intros i; simpl.
  - apply uniform_prints with tt "". apply prints_ret.
  - apply uniform_bind.
    { destruct (i =? 0);
        [ eapply uniform_prints, prints_printf
        | eapply uniform_prints, prints_ret ]. }
    intros _. apply uniform_bind; [ apply uniform_defined | ].
    intros value. apply uniform_bind; [ | intros _; apply IH ].
    destruct (value =? _POSIX_VDISABLE);
      [ | destruct (iscntrl value) ];
      eapply uniform_prints, prints_printf.
Qed.

Lemma show_flagset_from_uniform (tbl : list table_t) (info : termios) :
  forall i ty, uniform (show_flagset_from i tbl ty info).
Proof.
  induction tbl as [ | e tbl IH ]; intros i ty; simpl.
  - apply uniform_prints with i "". apply prints_ret.
  - apply uniform_bind.
    { destruct (match ty with
                | Some t => negb (String.eqb t (type e))
                | None => true
                end);
        [ eapply uniform_prints, prints_printf
        | eapply uniform_prints, prints_ret ]. }
    intros _. apply uniform_bind; [ apply uniform_defined | ].
    intros word. apply uniform_bind; [ | intros _; apply IH ].
    destruct (Z.land word (flag e) =? flag e);
      eapply uniform_prints, prints_printf.
Qed.

Lemma show_flagset_uniform (info : termios) : uniform (show_flagset info).
Proof.
  unfold show_flagset.
  apply uniform_bind; [ apply show_flagset_from_uniform | ].
  intros i. destruct (0 <? i);
    [ eapply uniform_prints, prints_printf
    | eapply uniform_prints, prints_ret ].
Qed.

(** What [show_tty] does once the window size and the speed are known. *)
Lemma show_tty_body_uniform (info : termios) (sz : Z * Z) (baud : Z) :
  uniform
    (printf ("speed " ++ fmt_d baud ++ " baud; ") ;;;
     printf ("rows " ++ fmt_d (fst sz) ++ "; ") ;;;
     printf ("cols " ++ fmt_d (snd sz) ++ ";" ++ nl) ;;;
     show_charset info ;;;
     show_flagset info).
Proof.
  repeat (apply uniform_bind;
          [ eapply uniform_prints, prints_printf | intros _ ]).
  apply uniform_bind; [ apply show_charset_from_uniform | intros _ ].
  apply show_flagset_uniform.
Qed.

Lemma getbaud_cases (speed : Z) :
  (exists baud, getbaud speed = ret baud) \/
  getbaud speed = (perror "failed to get baud speed" ;;; exit 1).
Proof.
  unfold getbaud.
  repeat match goal with
         | |- context [ speed =? ?b ] => destruct (speed =? b); [ eauto | ]
         end.
  now right.
Qed.

Lemma show_tty_unfold (info : termios) (w : world) :
  show_tty info w =
    match winsize w with
    | None =>
        Exit 1 (with_stderr (stderr w ++ "could not get window size" ++ nl) w)
    | Some sz =>
        match getbaud (cfgetospeed info) w with
        | Ret baud w' =>
            (printf ("speed " ++ fmt_d baud ++ " baud; ") ;;;
             printf ("rows " ++ fmt_d (fst sz) ++ "; ") ;;;
             printf ("cols " ++ fmt_d (snd sz) ++ ";" ++ nl) ;;;
             show_charset info ;;;
             show_flagset info) w'
        | Exit st w' => Exit st w'
        | Undefined => Undefined
        end
    end.
Proof.
  unfold show_tty, get_term_size. unfold bind at 1.
  destruct (winsize w); reflexivity.
Qed.

(** C9.  Two runs of [show_tty] on the same record and the same window
    size end alike and put the same text on the output stream, whatever
    else differs between the two worlds: both return having printed one
    and the same text, or both leave through [exit] with the same status
    and nothing printed, or both are undefined. *)
Theorem show_tty_deterministic (info : termios) (w1 w2 : world) :
  winsize w1 = winsize w2 ->
  match show_tty info w1, show_tty info w2 with
  | Ret _ w1', Ret _ w2' =>
      exists text,
        stdout w1' = stdout w1 ++ text /\ stdout w2' = stdout w2 ++ text
  | Exit s1 w1', Exit s2 w2' =>
      s1 = s2 /\ stdout w1' = stdout w1 /\ stdout w2' = stdout w2
  | Undefined, Undefined => True
  | _, _ => False
  end.
Proof.
  intros Hsz. rewrite !show_tty_unfold, Hsz.
  destruct (winsize w2) as [sz | ]; [ | simpl; auto ].
  destruct (getbaud_cases (cfgetospeed info)) as [[baud Hb] | Hb];
    rewrite Hb; [ | simpl; auto ].
  unfold ret.
  destruct (show_tty_body_uniform info sz baud) as [(a & text & H) | H];
    rewrite !H.
  - exists text. split; reflexivity.
  - exact I.
Qed.

End Properties.

(** * Further properties of the program *)

Section Program.

Context {platform : termios_h}.

(** ** One flag word *)

Lemma set_mode_inv (F : table_t) (status : Z) (info info' : termios) :
  set_mode F status info = Some info' ->
  exists word,
    tcflag_load info (mode F) = Some word /\
    tcflag_load info' (mode F) =
      Some (if status =? ON then Z.lor word (flag F)
            else Z.land word (tcflag_not (flag F))).
Proof.
  intros H.
  destruct (tcflag_load info (mode F)) as [word | ] eqn:Hload.
  - exists word. split; [ reflexivity | ].
    destruct (set_mode_defined F status info word Hload) as (i2 & H2 & L2).
    congruence.
  - unfold set_mode in H. rewrite Hload in H. discriminate.
Qed.

Lemma tcflag_store_other (info info' : termios) (off off' v : Z) :
  tcflag_store info off v = Some info' ->
  off' <> off ->
  tcflag_load info' off' = tcflag_load info off'.
Proof.
  destruct info. unfold tcflag_load, tcflag_store.
  repeat match goal with
         | |- context [ off =? ?b ] => destruct (Z.eqb_spec off b)
         end;
    intros H Hne; inversion H; subst;
    repeat match goal with
           | |- context [ off' =? ?b ] => destruct (Z.eqb_spec off' b)
           end;
    simpl; congruence.
Qed.

Lemma tcflag_store_speeds (info info' : termios) (off v : Z) :
  tcflag_store info off v = Some info' ->
  c_ispeed info' = c_ispeed info /\ c_ospeed info' = c_ospeed info.
Proof.
  destruct info. unfold tcflag_store.
  repeat match goal with
         | |- context [ off =? ?b ] => destruct (off =? b)
         end;
    intros H; inversion H; auto.
Qed.

Lemma set_mode_store (F : table_t) (status : Z) (info info' : termios) :
  set_mode F status info = Some info' ->
  exists v, tcflag_store info (mode F) v = Some info'.
Proof.
  unfold set_mode.
  destruct (tcflag_load info (mode F)); [ | discriminate ].
  destruct (status =? ON); eauto.
Qed.

Lemma land_then_lor (w m : Z) :
  0 <= w < 2 ^ tcflag_bits ->
  Z.lor (Z.land w (tcflag_not m)) m = Z.lor w m.
Proof.
  intros Hw. apply Z.bits_inj'. intros i Hi.
  rewrite !Z.lor_spec, Z.land_spec.
  destruct (Z.testbit m i) eqn:Em; [ now rewrite !orb_true_r | ].
  rewrite !orb_false_r.
  destruct (Z.testbit w i) eqn:Ew; [ | reflexivity ].
  simpl. unfold tcflag_not.
  destruct (Z.lt_ge_cases i tcflag_bits) as [Hlow | Hhigh].
  - rewrite Z.mod_pow2_bits_low by lia.
    rewrite Z.lnot_spec by lia. now rewrite Em.
  - rewrite (testbit_above_width w i Hw Hhigh) in Ew. discriminate.
Qed.

Lemma testbit_land_tcflag_not (w m i : Z) :
  0 <= w < 2 ^ tcflag_bits ->
  0 <= i ->
  Z.testbit m i = false ->
  Z.testbit (Z.land w (tcflag_not m)) i = Z.testbit w i.
Proof.
  intros Hw Hi Em. rewrite Z.land_spec.
  destruct (Z.testbit w i) eqn:Ew; [ | reflexivity ].
  simpl. unfold tcflag_not.
  destruct (Z.lt_ge_cases i tcflag_bits) as [Hlow | Hhigh].
  - rewrite Z.mod_pow2_bits_low by lia.
    rewrite Z.lnot_spec by lia. now rewrite Em.
  - rewrite (testbit_above_width w i Hw Hhigh) in Ew. discriminate.
Qed.

Lemma land_lor_self (w m : Z) : Z.land (Z.lor w m) m = m.
Proof.
  apply Z.bits_inj'. intros i Hi.
  rewrite Z.land_spec, Z.lor_spec.
  destruct (Z.testbit w i), (Z.testbit m i); reflexivity.
Qed.

Lemma land_not_then_land (w m : Z) : Z.land (Z.land w (tcflag_not m)) m = 0.
Proof.
  rewrite <- Z.land_assoc, (Z.land_comm _ m), land_tcflag_not_self.
  apply Z.land_0_r.
Qed.

Lemma rendered_after_set_mode (F : table_t) (status : Z)
  (info info' : termios) :
  set_mode F status info = Some info' ->
  (status = ON -> rendered_flag F info' = name F) /\
  (status <> ON -> flag F <> 0 -> rendered_flag F info' = "-" ++ name F).
Proof.
  intros H. destruct (set_mode_inv F status info info' H) as (word & _ & L).
  unfold rendered_flag, flag_is_on. rewrite L. split.
  - intros ->. change (ON =? ON) with true. cbv iota.
    now rewrite land_lor_self, Z.eqb_refl.
  - intros Hoff Hmask.
    destruct (Z.eqb_spec status ON); [ contradiction | ].
    rewrite land_not_then_land.
    destruct (Z.eqb_spec 0 (flag F)); congruence.
Qed.

(** X1.  What a flag option has done is what the display shows: after the
    assignment of [get_option] with ON the flag is rendered by its bare
    name, and after the assignment with any other status a flag with a
    non-zero mask is rendered behind the negation marker. *)
Theorem set_mode_then_rendered (F : table_t) (status : Z)
  (info info' : termios) :
  set_mode F status info = Some info' ->
  (status = ON -> rendered_flag F info' = name F) /\
  (status <> ON -> flag F <> 0 -> rendered_flag F info' = "-" ++ name F).
Proof. apply rendered_after_set_mode. Qed.

(** X2.  A flag option touches nothing but the bits of its mask: for a
    word within the width of [tcflag_t], every bit outside the mask keeps
    its value; the flag words at other offsets, the control characters
    and the line speeds are what they were. *)
Theorem set_mode_frame (F : table_t) (status : Z) (info info' : termios)
  (word : Z) :
  set_mode F status info = Some info' ->
  tcflag_load info (mode F) = Some word ->
  0 <= word < 2 ^ tcflag_bits ->
  (exists word',
     tcflag_load info' (mode F) = Some word' /\
     forall i, 0 <= i -> Z.testbit (flag F) i = false ->
               Z.testbit word' i = Z.testbit word i) /\
  (forall off, off <> mode F ->
               tcflag_load info' off = tcflag_load info off) /\
  c_cc info' = c_cc info /\
  c_ispeed info' = c_ispeed info /\
  c_ospeed info' = c_ospeed info.
Proof.
  intros H Hload Hw.
  destruct (set_mode_inv F status info info' H) as (word0 & L0 & L).
  rewrite Hload in L0. inversion L0. subst word0.
  destruct (set_mode_store F status info info' H) as [v Hv].
  split; [ | split; [ | split ] ].
  - eexists. split; [ exact L | ]. intros i Hi Em.
    destruct (status =? ON).
    + rewrite Z.lor_spec, Em. apply orb_false_r.
    + now apply testbit_land_tcflag_not.
  - intros off Hoff. now apply tcflag_store_other with (mode F) v.
  - now apply tcflag_store_c_cc with (mode F) v.
  - now apply tcflag_store_speeds with (mode F) v.
Qed.

(** X3.  Of two opposite settings of one flag the later wins: on and
    then off is off, and, for a word within the width of [tcflag_t], off
    and then on is on. *)
Theorem set_mode_last_wins (F : table_t) (info : termios) (word : Z) :
  tcflag_load info (mode F) = Some word ->
  0 <= word < 2 ^ tcflag_bits ->
  set_mode F ON info ≫= set_mode F OFF = set_mode F OFF info /\
  set_mode F OFF info ≫= set_mode F ON = set_mode F ON info.
Proof.
  intros Hload Hw.
  destruct (set_mode_defined F ON info word Hload) as (i1 & H1 & L1).
  destruct (set_mode_defined F OFF info word Hload) as (i0 & H0 & L0).
  change (ON =? ON) with true in L1. change (OFF =? ON) with false in L0.
  cbv iota in L1, L0.
  rewrite H1, H0. simpl.
  destruct (set_mode_store F ON info i1 H1) as [v1 Hv1].
  destruct (set_mode_store F OFF info i0 H0) as [v0 Hv0].
  split.
  - rewrite <- H0. unfold set_mode. rewrite L1, Hload.
    change (OFF =? ON) with false. cbv iota.
    rewrite (tcflag_store_store _ _ _ _ _ Hv1).
    now rewrite lor_then_land_not.
  - rewrite <- H1. unfold set_mode. rewrite L0, Hload.
    change (ON =? ON) with true. cbv iota.
    rewrite (tcflag_store_store _ _ _ _ _ Hv0).
    now rewrite land_then_lor.
Qed.

(** ** Caret notation *)

(** X4.  The character that [show_charset] prints behind the caret: for
    the control characters 0 to 31 the XOR with [CHAR_MASK] adds 64, for
    DEL it subtracts 64, and the result is always one of the printable
    characters ['?'] to ['_']. *)
Theorem caret_character (b : Z) :
  iscntrl b = true ->
  Z.lxor b CHAR_MASK = (if b =? 127 then b - 64 else b + 64) /\
  63 <= Z.lxor b CHAR_MASK <= 95 /\
  iscntrl (Z.lxor b CHAR_MASK) = false.
Proof.
  unfold iscntrl. intros H.
  assert (Hb : (0 <= b < 32) \/ b = 127).
  { apply orb_true_iff in H. destruct H as [H | H].
    - apply andb_true_iff in H. destruct H as [H1 H2]. left.
      apply Z.leb_le in H1. apply Z.ltb_lt in H2. lia.
    - right. now apply Z.eqb_eq. }
  destruct Hb as [Hb | ->]; [ | repeat split; discriminate ].
  assert (Hn : b = Z.of_nat (Z.to_nat b)) by lia.
  assert (Hlt : (Z.to_nat b < 32)%nat) by lia.
  rewrite Hn. clear Hn H Hb. revert Hlt.
  generalize (Z.to_nat b). clear b. intros n Hlt.
  do 32 (destruct n as [ | n ];
         [ repeat split; discriminate | ]; apply PeanoNat.lt_S_n in Hlt).
  inversion Hlt.
Qed.

(** ** The two tables *)

Lemma lookup_table_entry (F : table_t) :
  In F table -> lookup (name F) = Some F.
Proof.
  intros HF. simpl in HF.
  repeat (destruct HF as [HF | HF]; [ subst F; reflexivity | ]).
  contradiction.
Qed.

Lemma valid_char_opt_table_entry (c : ctable_t) :
  In c cchars -> valid_char_opt (c_name c) = Some c.
Proof.
  intros Hc. simpl in Hc.
  repeat (destruct Hc as [Hc | Hc]; [ subst c; reflexivity | ]).
  contradiction.
Qed.

(** X5.  Each table finds its own entries: looking up the name of a
    descriptor returns that very descriptor, and a lookup that succeeds
    returns a descriptor of the table that carries exactly the name asked
    for. *)
Theorem lookup_round_trip :
  (forall F, In F table -> lookup (name F) = Some F) /\
  (forall c, In c cchars -> valid_char_opt (c_name c) = Some c) /\
  (forall N F, lookup N = Some F -> In F table /\ name F = N) /\
  (forall T c, valid_char_opt T = Some c -> In c cchars /\ c_name c = T).
Proof.
  split; [ | split; [ | split ] ].
  - apply lookup_table_entry.
  - apply valid_char_opt_table_entry.
  - intros N F. apply lookup_from_Some.
  - intros T c. apply valid_char_opt_from_Some.
Qed.

Lemma cchar_name_cases (T : string) :
  is_cchar_name T ->
  T = "eof" \/ T = "eol" \/ T = "erase" \/ T = "intr" \/ T = "kill"
  \/ T = "quit" \/ T = "susp".
Proof. unfold is_cchar_name. simpl. intuition. Qed.

Lemma flag_name_cases (N : string) :
  is_flag_name N ->
  N = "icrnl" \/ N = "opost" \/ N = "hupcl" \/ N = "isig" \/ N = "icanon"
  \/ N = "echo" \/ N = "echoe" \/ N = "echok".
Proof. unfold is_flag_name. simpl. intuition. Qed.

Lemma cchar_name_tokens (T : string) :
  is_cchar_name T ->
  lookup T = None /\ lookup (snd (strip_negation T)) = None.
Proof.
  intros HT. apply cchar_name_cases in HT.
  repeat (destruct HT as [HT | HT]; [ subst T; split; reflexivity | ]).
  subst T. split; reflexivity.
Qed.

Lemma flag_name_tokens (N : string) :
  is_flag_name N ->
  valid_char_opt N = None /\ valid_char_opt ("-" ++ N) = None /\
  strip_negation N = (ON, N) /\ strip_negation ("-" ++ N) = (OFF, N).
Proof.
  intros HN. apply flag_name_cases in HN.
  repeat (destruct HN as [HN | HN];
          [ subst N; repeat split; reflexivity | ]).
  subst N. repeat split; reflexivity.
Qed.

(** X6.  The two name spaces cannot be confused: a control-character
    name is no flag name, with or without its first character taken for a
    negation marker, and a flag name, bare or negated, is no
    control-character name.  So the order in which [main] tries the two
    tables never decides what a token means. *)
Theorem names_unambiguous :
  (forall T, is_cchar_name T ->
     lookup T = None /\ lookup (snd (strip_negation T)) = None) /\
  (forall N, is_flag_name N ->
     valid_char_opt N = None /\ valid_char_opt ("-" ++ N) = None /\
     strip_negation N = (ON, N) /\ strip_negation ("-" ++ N) = (OFF, N)).
Proof. split; [ apply cchar_name_tokens | apply flag_name_tokens ]. Qed.

(** ** Line speeds *)

Lemma getbaud_find (speed : Z) :
  getbaud speed =
    match find (fun p => speed =? fst p) speed_codes with
    | Some p => ret (snd p)
    | None => perror "failed to get baud speed" ;;; exit 1
    end.
Proof.
  unfold getbaud, speed_codes. simpl.
  repeat match goal with
         | |- context [ speed =? ?b ] => destruct (speed =? b); [ reflexivity | ]
         end.
  reflexivity.
Qed.

Lemma find_first_key (l : list (Z * Z)) (code baud : Z) :
  List.NoDup (map fst l) ->
  In (code, baud) l ->
  find (fun p => code =? fst p) l = Some (code, baud).
Proof.
  induction l as [ | [k v] l IH ]; simpl; [ contradiction | ].
  intros Hnd Hin. inversion Hnd as [ | k' l' Hk Hl ]. subst.
  destruct Hin as [Heq | Hin].
  - inversion Heq. subst. now rewrite Z.eqb_refl.
  - destruct (Z.eqb_spec code k) as [-> | Hne].
    + exfalso. apply Hk. now apply (in_map fst l (k, baud)).
    + now apply IH.
Qed.

Lemma find_no_key (l : list (Z * Z)) (code : Z) :
  ~ In code (map fst l) -> find (fun p => code =? fst p) l = None.
Proof.
  induction l as [ | [k v] l IH ]; simpl; [ reflexivity | ].
  intros H. destruct (Z.eqb_spec code k) as [-> | Hne].
  - exfalso. apply H. now left.
  - apply IH. intros Hin. apply H. now right.
Qed.

(** X7.  [getbaud] on a platform whose sixteen speed codes are pairwise
    different, as the labels of a [switch] have to be: every code of the
    table is converted to the baud rate listed with it, and any other
    value ends the run through [perror] and [exit (1)]. *)
Theorem getbaud_converts (speed : Z) (w : world) :
  List.NoDup (map fst speed_codes) ->
  (forall baud, In (speed, baud) speed_codes ->
     getbaud speed w = Ret baud w) /\
  (~ In speed (map fst speed_codes) ->
     getbaud speed w =
       Exit 1 (with_stderr
                 (stderr w ++ "failed to get baud speed" ++ ": "
                  ++ errno_text w ++ nl) w)).
Proof.
  intros Hnd. rewrite getbaud_find. split.
  - intros baud Hin. now rewrite (find_first_key _ _ _ Hnd Hin).
  - intros Hout. now rewrite (find_no_key _ _ Hout).
Qed.

(** ** Whole runs *)

Lemma main_loop_exit_world (av : list string) (info : termios)
  (w w' : world) (st : Z) :
  main_loop av info w = Exit st w' ->
  st = 1 /\ exists text, w' = with_stderr (stderr w ++ text) w.
Proof.
  intros H.
  destruct (main_loop_exit_inv av info w st w' H)
    as (pre & suf & err & arg & info1 & -> & Hpre & Hfail).
  rewrite (main_loop_app pre suf _ _ _ _ Hpre) in H.
  rewrite (token_failure_exits suf err arg info1 w Hfail) in H.
  inversion H. eauto.
Qed.

Lemma show_tty_ret_world (info : termios) (w w' : world) (a : unit) :
  show_tty info w = Ret a w' ->
  exists text, w' = with_stdout (stdout w ++ text) w.
Proof.
  rewrite show_tty_unfold.
  destruct (winsize w) as [sz | ]; [ | discriminate ].
  destruct (getbaud_cases (cfgetospeed info)) as [[baud Hb] | Hb];
    rewrite Hb; [ | discriminate ].
  unfold ret.
  destruct (show_tty_body_uniform info sz baud) as [(u & text & H) | H];
    rewrite H; [ | discriminate ].
  intros E. inversion E. eauto.
Qed.

Lemma show_tty_exit_world (info : termios) (w w' : world) (st : Z) :
  show_tty info w = Exit st w' ->
  st = 1 /\ exists text, w' = with_stderr (stderr w ++ text) w.
Proof.
  rewrite show_tty_unfold.
  destruct (winsize w) as [sz | ].
  - destruct (getbaud_cases (cfgetospeed info)) as [[baud Hb] | Hb];
      rewrite Hb.
    + unfold ret.
      destruct (show_tty_body_uniform info sz baud) as [(u & text & H) | H];
        rewrite H; discriminate.
    + intros E. inversion E. eauto.
  - intros E. inversion E. eauto.
Qed.

Lemma main_no_args (av0 : string) (w : world) :
  tcgetattr_ok w = true ->
  main av0 [] w =
    match show_tty (tty w) (with_progname av0 w) with
    | Ret _ w' => Ret 0 w'
    | Exit st w' => Exit st w'
    | Undefined => Undefined
    end.
Proof.
  intros Hget. unfold main, get_settings. unfold bind at 1. rewrite Hget.
  reflexivity.
Qed.

Lemma main_with_args (av0 : string) (T : string) (rest : list string)
  (w : world) :
  tcgetattr_ok w = true ->
  main av0 (T :: rest) w =
    match main_loop (T :: rest) (tty w) (with_progname av0 w) with
    | Ret info' w' => set_settings info' w'
    | Exit st w' => Exit st w'
    | Undefined => Undefined
    end.
Proof.
  intros Hget. unfold main, get_settings. unfold bind at 1. rewrite Hget.
  reflexivity.
Qed.

Lemma main_no_terminal (av0 : string) (args : list string) (w : world) :
  tcgetattr_ok w = false ->
  main av0 args w =
    Exit 1 (with_stderr
              (stderr w ++ "cannot get tty info for stdin" ++ ": "
               ++ errno_text w ++ nl) w).
Proof.
  intros Hget. unfold main, get_settings. unfold bind at 1. rewrite Hget.
  reflexivity.
Qed.

(** X8.  The exit status of the program and what a failed run leaves
    behind: whatever the arguments and the world, [main] returns only 0
    and calls [exit] only with 1; a run that ends through [exit] has
    printed nothing on the output stream and has not changed the
    attributes of the terminal. *)
Theorem main_exit_status (av0 : string) (args : list string) (w : world) :
  match main av0 args w with
  | Ret st w' => st = 0
  | Exit st w' => st = 1 /\ stdout w' = stdout w /\ tty w' = tty w
  | Undefined => True
  end.
Proof.
  destruct (tcgetattr_ok w) eqn:Hget;
    [ | rewrite (main_no_terminal av0 args w Hget); auto ].
  destruct args as [ | T rest ].
  - rewrite (main_no_args av0 w Hget).
    destruct (show_tty (tty w) (with_progname av0 w)) as [a w' | st w' | ] eqn:E;
      [ reflexivity | | exact I ].
    apply show_tty_exit_world in E. destruct E as (-> & text & ->). auto.
  - rewrite (main_with_args av0 T rest w Hget).
    destruct (main_loop (T :: rest) (tty w) (with_progname av0 w))
      as [info' w' | st w' | ] eqn:E; [ | | exact I ].
    + apply main_loop_world in E. subst w'.
      unfold set_settings. simpl.
      destruct (tcsetattr_ok w); simpl; auto.
    + apply main_loop_exit_world in E. destruct E as (-> & text & ->). auto.
Qed.

(** X9.  Without arguments the program only displays: however the run
    ends, [tcsetattr] is not called and the attributes of the terminal
    stay; and when the terminal can be read, the run is [show_tty] on its
    attributes, with status 0 when that returns. *)
Theorem main_display_only (av0 : string) (w : world) :
  match main av0 [] w with
  | Ret _ w' | Exit _ w' => applied w' = applied w /\ tty w' = tty w
  | Undefined => True
  end /\
  (tcgetattr_ok w = true ->
   forall w', show_tty (tty w) (with_progname av0 w) = Ret tt w' ->
              main av0 [] w = Ret 0 w').
Proof.
  split.
  - destruct (tcgetattr_ok w) eqn:Hget;
      [ | rewrite (main_no_terminal av0 [] w Hget); auto ].
    rewrite (main_no_args av0 w Hget).
    destruct (show_tty (tty w) (with_progname av0 w)) as [a w' | st w' | ] eqn:E;
      [ | | exact I ].
    + apply show_tty_ret_world in E. destruct E as (text & ->). auto.
    + apply show_tty_exit_world in E. destruct E as (_ & text & ->). auto.
  - intros Hget w' E. rewrite (main_no_args av0 w Hget). now rewrite E.
Qed.

(** X10.  With arguments that are all read without a failure the record
    the loop has built is handed to [tcsetattr] exactly once: when that
    succeeds the run returns 0, the terminal holds that record and nothing
    was printed on either stream; when it fails the run ends through
    [perror] and [exit (1)] and the terminal keeps its attributes. *)
Theorem main_applies_once (av0 : string) (T : string) (rest : list string)
  (w w1 : world) (info' : termios) :
  tcgetattr_ok w = true ->
  main_loop (T :: rest) (tty w) (with_progname av0 w) = Ret info' w1 ->
  exists w',
    (if tcsetattr_ok w
     then main av0 (T :: rest) w = Ret 0 w' /\ tty w' = info' /\
          stderr w' = stderr w
     else main av0 (T :: rest) w = Exit 1 w' /\ tty w' = tty w /\
          stderr w' = stderr w ++ "Setting attributes" ++ ": "
                      ++ errno_text w ++ nl) /\
    applied w' = (applied w ++ [info'])%list /\
    stdout w' = stdout w.
Proof.
  intros Hget Hloop.
  pose proof (main_loop_world _ _ _ _ _ Hloop). subst w1.
  rewrite (main_with_args av0 T rest w Hget), Hloop.
  unfold set_settings. simpl.
  destruct (tcsetattr_ok w); simpl; eexists; repeat split; reflexivity.
Qed.

(** ** What the argument loop keeps *)

Lemma change_char_ret_inv (c : ctable_t) (value : string)
  (info info' : termios) (w w' : world) :
  change_char c value info w = Ret info' w' ->
  0 <= c_value c < Z.of_nat (length (c_cc info)) /\
  c_cc info' = <[Z.to_nat (c_value c) := to_uchar (char_at_0 value)]> (c_cc info) /\
  c_iflag info' = c_iflag info /\ c_oflag info' = c_oflag info /\
  c_cflag info' = c_cflag info /\ c_lflag info' = c_lflag info /\
  c_ispeed info' = c_ispeed info /\ c_ospeed info' = c_ospeed info.
Proof.
  unfold change_char.
  destruct (_ || _); [ rewrite fatal_exits; discriminate | ].
  destruct info as [ifl ofl cfl lfl cc isp osp]. unfold cc_store.
  destruct (Z.leb_spec 0 (c_value c)); simpl; [ | discriminate ].
  destruct (Z.ltb_spec (c_value c) (Z.of_nat (length cc))); simpl;
    [ | discriminate ].
  intros E. inversion E. simpl. repeat split; auto.
Qed.

Lemma get_option_ret_inv (T : string) (info info' : termios) (w w' : world) :
  get_option T info w = Ret info' w' ->
  exists F,
    In F table /\ name F = snd (strip_negation T) /\
    set_mode F (fst (strip_negation T)) info = Some info'.
Proof.
  rewrite get_option_strip. unfold lookup.
  destruct (lookup_from table (snd (strip_negation T))) as [F | ] eqn:EF;
    [ | rewrite fatal_exits; discriminate ].
  apply lookup_from_Some in EF. destruct EF as [Hin Hname].
  destruct (set_mode F _ info) as [i1 | ] eqn:E; simpl; [ | discriminate ].
  intros H. inversion H. subst. exists F. auto.
Qed.

Lemma get_option_keeps (T : string) (info info' : termios) (w w' : world) :
  get_option T info w = Ret info' w' ->
  c_cc info' = c_cc info /\
  c_ispeed info' = c_ispeed info /\ c_ospeed info' = c_ospeed info.
Proof.
  intros H. destruct (get_option_ret_inv _ _ _ _ _ H) as (F & _ & _ & HF).
  destruct (set_mode_store F _ info info' HF) as [v Hv].
  split; [ now apply tcflag_store_c_cc with (mode F) v | ].
  now apply tcflag_store_speeds with (mode F) v.
Qed.

(** X11.  The argument loop never changes the line speeds or the size of
    the control-character array, and it leaves alone every slot of the
    array that is not the subscript of an entry of [cchars]. *)
Theorem main_loop_keeps (av : list string) :
  forall info info' w w',
    main_loop av info w = Ret info' w' ->
    length (c_cc info') = length (c_cc info) /\
    c_ispeed info' = c_ispeed info /\
    c_ospeed info' = c_ospeed info /\
    (forall j, (forall c, In c cchars -> c_value c <> j) ->
               cc_load info' j = cc_load info j).
Proof.
  induction av as [ | T rest IH1 IH2 ] using args_ind; intros info info' w w'.
  - simpl. intros H. inversion H. auto.
  - simpl. destruct (valid_char_opt T) as [c | ] eqn:Hc.
    + destruct rest as [ | value rest' ];
        [ rewrite fatal_exits; discriminate | ].
      unfold bind.
      destruct (change_char c value info w) as [i1 w1 | | ] eqn:E;
        try discriminate.
      intros H.
      destruct (IH2 value rest' eq_refl _ _ _ _ H) as (Hl & Hi & Ho & Hj).
      destruct (change_char_ret_inv _ _ _ _ _ _ E)
        as (Hr & Hcc & _ & _ & _ & _ & Hi1 & Ho1).
      apply valid_char_opt_from_Some in Hc. destruct Hc as [Hin _].
      split; [ rewrite Hl, Hcc; apply length_insert | ].
      split; [ congruence | ]. split; [ congruence | ].
      intros j Hout. rewrite (Hj j Hout).
      apply cc_load_insert_ne
        with (c_value c) (to_uchar (char_at_0 value));
        [ lia | | assumption ].
      intros ->. now apply (Hout c).
    + unfold bind.
      destruct (get_option T info w) as [i1 w1 | | ] eqn:E;
        try discriminate.
      intros H.
      destruct (IH1 _ _ _ _ H) as (Hl & Hi & Ho & Hj).
      destruct (get_option_keeps _ _ _ _ _ E) as (Hcc & Hi1 & Ho1).
      split; [ congruence | ]. split; [ congruence | ].
      split; [ congruence | ].
      intros j Hout. rewrite (Hj j Hout). unfold cc_load. now rewrite Hcc.
Qed.

(** ** No undefined behaviour *)

Lemma cchars_in_range_length (info info' : termios) :
  length (c_cc info') = length (c_cc info) ->
  cchars_in_range info -> cchars_in_range info'.
Proof. unfold cchars_in_range. now intros ->. Qed.

Lemma main_loop_defined (av : list string) :
  forall info w, cchars_in_range info -> main_loop av info w <> Undefined.
Proof.
  induction av as [ | T rest IH1 IH2 ] using args_ind; intros info w Hr.
  - discriminate.
  - simpl. destruct (valid_char_opt T) as [c | ] eqn:Hc.
    + destruct rest as [ | value rest' ];
        [ rewrite fatal_exits; discriminate | ].
      apply valid_char_opt_from_Some in Hc. destruct Hc as [Hin _].
      assert (Hc : 0 <= c_value c < Z.of_nat (length (c_cc info))).
      { unfold cchars_in_range in Hr. rewrite List.Forall_forall in Hr.
        now apply Hr. }
      unfold bind.
      destruct (change_char c value info w) as [i1 w1 | | ] eqn:E;
        [ | discriminate | ].
      * apply (IH2 value rest' eq_refl).
        apply cchars_in_range_length with info; [ | assumption ].
        destruct (change_char_ret_inv _ _ _ _ _ _ E) as (_ & Hcc & _).
        rewrite Hcc. apply length_insert.
      * exfalso. revert E. unfold change_char.
        destruct (_ || _); [ rewrite fatal_exits; discriminate | ].
        now rewrite (cc_store_defined _ _ _ Hc).
    + unfold bind.
      destruct (get_option T info w) as [i1 w1 | | ] eqn:E;
        [ | discriminate | ].
      * apply IH1. apply cchars_in_range_length with info; [ | assumption ].
        destruct (get_option_keeps _ _ _ _ _ E) as (Hcc & _). now rewrite Hcc.
      * exfalso. revert E. rewrite get_option_strip. unfold lookup.
        destruct (lookup_from table (snd (strip_negation T))) as [F | ] eqn:EF;
          [ | rewrite fatal_exits; discriminate ].
        apply lookup_from_Some in EF. destruct EF as [HF _].
        destruct (tcflag_load_table info F HF) as [word Hword].
        destruct (set_mode_defined F (fst (strip_negation T)) info word Hword)
          as (i1 & H1 & _).
        now rewrite H1.
Qed.

Lemma show_flagset_prints (info : termios) :
  prints (show_flagset info) tt (flagset_text table None info ++ nl).
Proof.
  unfold show_flagset.
  apply prints_bind with (0 + Z.of_nat (length table)).
  - apply show_flagset_from_prints. apply tcflag_load_table.
  - apply prints_printf.
Qed.

Lemma show_charset_prints (info : termios) :
  cchars_in_range info ->
  prints (show_charset info) tt
    ("cchars: "
     ++ fold_right String.append ""
          (map (fun c => rendered_cchar c info) cchars)).
Proof.
  intros Hr.
  exact (show_charset_from_prints cchars info Hr 0 (Z.le_refl 0)).
Qed.

Lemma show_tty_body_prints (info : termios) (sz : Z * Z) (baud : Z) :
  cchars_in_range info ->
  prints
    (printf ("speed " ++ fmt_d baud ++ " baud; ") ;;;
     printf ("rows " ++ fmt_d (fst sz) ++ "; ") ;;;
     printf ("cols " ++ fmt_d (snd sz) ++ ";" ++ nl) ;;;
     show_charset info ;;;
     show_flagset info)
    tt
    (("speed " ++ fmt_d baud ++ " baud; ")
     ++ ("rows " ++ fmt_d (fst sz) ++ "; ")
     ++ ("cols " ++ fmt_d (snd sz) ++ ";" ++ nl)
     ++ ("cchars: "
         ++ fold_right String.append ""
              (map (fun c => rendered_cchar c info) cchars))
     ++ (flagset_text table None info ++ nl)).
Proof.
  intros Hr.
  repeat (apply prints_bind with tt; [ apply prints_printf | ]).
  apply prints_bind with tt; [ now apply show_charset_prints | ].
  apply show_flagset_prints.
Qed.

(** X12.  The program is memory safe on a record whose control-character
    array holds every subscript of the table [cchars]: whatever the
    arguments, no run of [main] reads or writes outside the record. *)
Theorem main_defined (av0 : string) (args : list string) (w : world) :
  cchars_in_range (tty w) -> main av0 args w <> Undefined.
Proof.
  intros Hr.
  destruct (tcgetattr_ok w) eqn:Hget;
    [ | rewrite (main_no_terminal av0 args w Hget); discriminate ].
  destruct args as [ | T rest ].
  - rewrite (main_no_args av0 w Hget), show_tty_unfold.
    destruct (winsize (with_progname av0 w)) as [sz | ]; [ | discriminate ].
    destruct (getbaud_cases (cfgetospeed (tty w))) as [[baud Hb] | Hb];
      rewrite Hb; [ | discriminate ].
    unfold ret. rewrite (show_tty_body_prints (tty w) sz baud Hr).
    discriminate.
  - rewrite (main_with_args av0 T rest w Hget).
    pose proof (main_loop_defined (T :: rest) (tty w) (with_progname av0 w) Hr).
    destruct (main_loop (T :: rest) (tty w) (with_progname av0 w))
      as [info' w' | st w' | ]; [ | discriminate | contradiction ].
    unfold set_settings.
    destruct (tcsetattr_ok _); discriminate.
Qed.

(** ** The display in full *)

(** X13.  The text of the display: with a window of [rows] by [cols], a
    speed code that [getbaud] converts to [baud] and a record that holds
    every subscript of [cchars], [show_tty] returns after printing the
    line of speed and size, the control-character block and the flag
    blocks with their closing newline, and does nothing else. *)
Theorem show_tty_text (info : termios) (w : world) (rows cols baud : Z) :
  winsize w = Some (rows, cols) ->
  getbaud (cfgetospeed info) w = Ret baud w ->
  cchars_in_range info ->
  show_tty info w =
    Ret tt
      (with_stdout
         (stdout w
          ++ ("speed " ++ fmt_d baud ++ " baud; ")
          ++ ("rows " ++ fmt_d rows ++ "; ")
          ++ ("cols " ++ fmt_d cols ++ ";" ++ nl)
          ++ ("cchars: "
              ++ fold_right String.append ""
                   (map (fun c => rendered_cchar c info) cchars))
          ++ (flagset_text table None info ++ nl)) w).
Proof.
  intros Hsz Hbaud Hr. rewrite show_tty_unfold, Hsz, Hbaud.
  exact (show_tty_body_prints info (rows, cols) baud Hr w).
Qed.

(** X14.  When the display cannot be produced: without a window size the
    run ends through [exit (1)] with "could not get window size" on the
    error stream, and with a window size but a speed code outside the
    table of [getbaud] it ends through [perror] and [exit (1)]; in both
    cases before anything is printed on the output stream. *)
Theorem show_tty_failures (info : termios) (w : world) :
  (winsize w = None ->
   show_tty info w =
     Exit 1 (with_stderr (stderr w ++ "could not get window size" ++ nl) w))
  /\
  (forall sz,
     winsize w = Some sz ->
     ~ In (cfgetospeed info) (map fst speed_codes) ->
     show_tty info w =
       Exit 1 (with_stderr
                 (stderr w ++ "failed to get baud speed" ++ ": "
                  ++ errno_text w ++ nl) w)).
Proof.
  split.
  - intros Hsz. now rewrite show_tty_unfold, Hsz.
  - intros sz Hsz Hout.
    rewrite show_tty_unfold, Hsz, getbaud_find, (find_no_key _ _ Hout).
    reflexivity.
Qed.

(** ** From the command line to the display *)

Lemma main_loop_one_flag (F : table_t) (info : termios) (w : world) :
  In F table ->
  exists i1 i0,
    set_mode F ON info = Some i1 /\
    set_mode F OFF info = Some i0 /\
    main_loop [name F] info w = Ret i1 w /\
    main_loop ["-" ++ name F] info w = Ret i0 w.
Proof.
  intros HF.
  destruct (tcflag_load_table info F HF) as [word Hword].
  destruct (set_mode_defined F ON info word Hword) as (i1 & H1 & _).
  destruct (set_mode_defined F OFF info word Hword) as (i0 & H0 & _).
  destruct (flag_name_tokens (name F) (in_map name table F HF))
    as (Hv1 & Hv0 & Hs1 & Hs0).
  exists i1, i0. split; [ assumption | ]. split; [ assumption | ].
  split.
  - simpl main_loop. rewrite Hv1. unfold bind.
    rewrite get_option_strip, Hs1. cbn [fst snd].
    now rewrite (lookup_table_entry F HF), H1.
  - cbn [main_loop]. rewrite Hv0. unfold bind.
    rewrite get_option_strip, Hs0. cbn [fst snd].
    now rewrite (lookup_table_entry F HF), H0.
Qed.

(** X15.  A flag option reaches the terminal: on a terminal that can be
    read and written, the run with the name of any flag of the table as
    its only argument returns 0 and the terminal then shows the flag as
    on; with the negated name, and a non-zero mask, it shows the flag as
    off. *)
Theorem main_sets_flag (av0 : string) (F : table_t) (w : world) :
  tcgetattr_ok w = true ->
  tcsetattr_ok w = true ->
  In F table ->
  (exists w',
     main av0 [name F] w = Ret 0 w' /\
     rendered_flag F (tty w') = name F) /\
  (flag F <> 0 ->
   exists w',
     main av0 ["-" ++ name F] w = Ret 0 w' /\
     rendered_flag F (tty w') = "-" ++ name F).
Proof.
  intros Hget Hset HF.
  destruct (main_loop_one_flag F (tty w) (with_progname av0 w) HF)
    as (i1 & i0 & H1 & H0 & L1 & L0).
  split.
  - rewrite (main_with_args av0 _ _ w Hget), L1.
    unfold set_settings. simpl tcsetattr_ok. rewrite Hset.
    eexists. split; [ reflexivity | ]. simpl tty.
    now apply (rendered_after_set_mode F ON (tty w) i1 H1).
  - intros Hmask.
    rewrite (main_with_args av0 _ _ w Hget), L0.
    unfold set_settings. simpl tcsetattr_ok. rewrite Hset.
    eexists. split; [ reflexivity | ]. simpl tty.
    apply (rendered_after_set_mode F OFF (tty w) i0 H0);
      [ discriminate | assumption ].
Qed.

(** X16.  A control-character option reaches the terminal: on a terminal
    that can be read and written, the run with the name of an entry of
    [cchars] and a one-character 7-bit ASCII value returns 0, and the
    terminal then holds that character in the slot of the entry and
    displays it there. *)
Theorem main_sets_cchar (av0 : string) (c : ctable_t) (ch : ascii)
  (w : world) :
  tcgetattr_ok w = true ->
  tcsetattr_ok w = true ->
  In c cchars ->
  0 <= c_value c < Z.of_nat (length (c_cc (tty w))) ->
  (N_of_ascii ch < 128)%N ->
  exists w',
    main av0 [c_name c; String ch ""] w = Ret 0 w' /\
    cc_load (tty w') (c_value c) = Some (Z.of_N (N_of_ascii ch)) /\
    rendered_cchar c (tty w') =
      c_name c ++ " = " ++ rendered_cc (Z.of_N (N_of_ascii ch)) ++ "; ".
Proof.
  intros Hget Hset Hc Hr Hch.
  assert (Hasc : isascii (char_at_0 (String ch "")) = true).
  { simpl. rewrite (int_of_char_ascii ch Hch). apply isascii_range. lia. }
  rewrite (main_with_args av0 _ _ w Hget).
  simpl main_loop. rewrite (valid_char_opt_table_entry c Hc).
  unfold bind.
  rewrite (change_char_writes c (String ch "") (tty w) _ (le_n 1) Hasc Hr).
  unfold ret, set_settings. simpl tcsetattr_ok. rewrite Hset.
  simpl char_at_0. rewrite (int_of_char_ascii ch Hch).
  eexists. split; [ reflexivity | ]. simpl tty.
  assert (Hload :
    cc_load
      (mk_termios (c_iflag (tty w)) (c_oflag (tty w)) (c_cflag (tty w))
         (c_lflag (tty w))
         (<[Z.to_nat (c_value c) := Z.of_N (N_of_ascii ch)]> (c_cc (tty w)))
         (c_ispeed (tty w)) (c_ospeed (tty w))) (c_value c)
    = Some (Z.of_N (N_of_ascii ch)))
    by now apply cc_load_insert_eq with (tty w).
  split; [ exact Hload | ].
  unfold rendered_cchar. now rewrite Hload.
Qed.

(** ** The order of options *)

Lemma flag_ops_commute (w f g s t : Z) :
  Z.land f g = 0 ->
  0 <= f < 2 ^ tcflag_bits ->
  0 <= g < 2 ^ tcflag_bits ->
  (let x := if s =? ON then Z.lor w f else Z.land w (tcflag_not f) in
   if t =? ON then Z.lor x g else Z.land x (tcflag_not g)) =
  (let y := if t =? ON then Z.lor w g else Z.land w (tcflag_not g) in
   if s =? ON then Z.lor y f else Z.land y (tcflag_not f)).
Proof.
  intros Hfg Hf Hg.
  assert (Hf' : Z.land f (tcflag_not g) = f)
    by now apply land_tcflag_not_fixed.
  assert (Hg' : Z.land g (tcflag_not f) = g)
    by (apply land_tcflag_not_fixed; [ assumption | now rewrite Z.land_comm ]).
  cbv zeta. destruct (s =? ON), (t =? ON).
  - now rewrite <- !Z.lor_assoc, (Z.lor_comm f g).
  - now rewrite Z.land_lor_distr_l, Hf'.
  - now rewrite Z.land_lor_distr_l, Hg'.
  - now rewrite <- !Z.land_assoc, (Z.land_comm (tcflag_not f)).
Qed.

Lemma tcflag_store_commute (info : termios) (off off' v v' : Z) :
  off <> off' ->
  tcflag_store info off v ≫= (fun i => tcflag_store i off' v') =
  tcflag_store info off' v' ≫= (fun i => tcflag_store i off v).
Proof.
  destruct info. unfold tcflag_store. intros Hne.
  repeat match goal with
         | |- context [ off =? ?b ] => destruct (Z.eqb_spec off b)
         end;
    repeat match goal with
           | |- context [ off' =? ?b ] => destruct (Z.eqb_spec off' b)
           end;
    simpl; congruence.
Qed.

Lemma set_mode_as_store (F : table_t) (s : Z) (info : termios) (w : Z) :
  tcflag_load info (mode F) = Some w ->
  set_mode F s info =
    tcflag_store info (mode F)
      (if s =? ON then Z.lor w (flag F)
       else Z.land w (tcflag_not (flag F))).
Proof.
  intros H. unfold set_mode. rewrite H. now destruct (s =? ON).
Qed.

Lemma set_mode_undefined (F : table_t) (s : Z) (info : termios) :
  tcflag_load info (mode F) = None -> set_mode F s info = None.
Proof. intros H. unfold set_mode. now rewrite H. Qed.

Lemma set_mode_other_load (F : table_t) (s : Z) (info info' : termios)
  (off : Z) :
  set_mode F s info = Some info' ->
  off <> mode F ->
  tcflag_load info' off = tcflag_load info off.
Proof.
  intros H Hne. destruct (set_mode_store F s info info' H) as [v Hv].
  now apply tcflag_store_other with (mode F) v.
Qed.

(** X17.  Flag options whose masks share no bit can be given in either
    order: for masks within the width of [tcflag_t], setting or clearing
    [F] and then [G] gives the record that [G] and then [F] gives,
    whether the two flags live in the same word or not. *)
Theorem set_mode_commute (F G : table_t) (s t : Z) (info : termios) :
  Z.land (flag F) (flag G) = 0 ->
  0 <= flag F < 2 ^ tcflag_bits ->
  0 <= flag G < 2 ^ tcflag_bits ->
  set_mode F s info ≫= set_mode G t = set_mode G t info ≫= set_mode F s.
Proof.
  intros Hfg Hf Hg.
  destruct (tcflag_load info (mode F)) as [wF | ] eqn:LF;
    destruct (tcflag_load info (mode G)) as [wG | ] eqn:LG.
  - destruct (set_mode_defined F s info wF LF) as (i1 & H1 & L1).
    destruct (set_mode_defined G t info wG LG) as (i2 & H2 & L2).
    rewrite H1, H2. simpl.
    destruct (Z.eq_dec (mode G) (mode F)) as [Heq | Hne].
    + rewrite Heq in *. rewrite LF in LG. inversion LG. subst wG.
      rewrite (set_mode_as_store G t i1 _ ltac:(rewrite Heq; exact L1)).
      rewrite (set_mode_as_store F s i2 _ L2).
      rewrite (set_mode_as_store F s info wF LF) in H1.
      rewrite (set_mode_as_store G t info wF ltac:(rewrite Heq; exact LF)) in H2.
      rewrite Heq in *.
      rewrite (tcflag_store_store _ _ _ _ _ H1).
      rewrite (tcflag_store_store _ _ _ _ _ H2).
      f_equal. apply (flag_ops_commute wF (flag F) (flag G) s t Hfg Hf Hg).
    + assert (LG1 : tcflag_load i1 (mode G) = Some wG)
        by now rewrite (set_mode_other_load F s info i1 (mode G) H1 Hne).
      assert (LF2 : tcflag_load i2 (mode F) = Some wF).
      { rewrite (set_mode_other_load G t info i2 (mode F) H2); auto. }
      rewrite (set_mode_as_store G t i1 wG LG1).
      rewrite (set_mode_as_store F s i2 wF LF2).
      rewrite (set_mode_as_store F s info wF LF) in H1.
      rewrite (set_mode_as_store G t info wG LG) in H2.
      pose proof (tcflag_store_commute info (mode F) (mode G)
                    (if s =? ON then Z.lor wF (flag F)
                     else Z.land wF (tcflag_not (flag F)))
                    (if t =? ON then Z.lor wG (flag G)
                     else Z.land wG (tcflag_not (flag G)))
                    ltac:(congruence)) as Hc.
      rewrite H1, H2 in Hc. exact Hc.
  - rewrite (set_mode_undefined G t info LG).
    destruct (set_mode F s info) as [i1 | ] eqn:H1; [ | reflexivity ].
    simpl. apply set_mode_undefined.
    destruct (Z.eq_dec (mode G) (mode F)) as [Heq | Hne];
      [ rewrite Heq in LG; congruence | ].
    now rewrite (set_mode_other_load F s info i1 (mode G) H1 Hne).
  - rewrite (set_mode_undefined F s info LF).
    destruct (set_mode G t info) as [i2 | ] eqn:H2; [ | reflexivity ].
    simpl. symmetry. apply set_mode_undefined.
    destruct (Z.eq_dec (mode F) (mode G)) as [Heq | Hne];
      [ rewrite Heq in LF; congruence | ].
    now rewrite (set_mode_other_load G t info i2 (mode F) H2 Hne).
  - now rewrite (set_mode_undefined F s info LF),
      (set_mode_undefined G t info LG).
Qed.

(** X18.  Two control-character options: when [change_char] has set the
    slot of [c1], a second call on the same slot behaves as if the first
    had not happened, so the later value wins; and two accepted calls on
    different slots give the same record in either order. *)
Theorem change_char_order (c1 c2 : ctable_t) (v1 v2 : string)
  (info i1 : termios) (w w1 : world) :
  change_char c1 v1 info w = Ret i1 w1 ->
  (c_value c2 = c_value c1 ->
   change_char c2 v2 i1 w = change_char c2 v2 info w) /\
  (c_value c2 <> c_value c1 ->
   forall i12,
     change_char c2 v2 i1 w = Ret i12 w ->
     exists i2,
       change_char c2 v2 info w = Ret i2 w /\
       change_char c1 v1 i2 w = Ret i12 w).
Proof.
  unfold change_char.
  destruct ((1 <? Z.of_nat (String.length v1))
            || negb (isascii (char_at_0 v1)));
    [ rewrite fatal_exits; discriminate | ].
  destruct info as [ifl ofl cfl lfl cc isp osp]. unfold cc_store at 1.
  destruct (Z.leb_spec 0 (c_value c1)) as [H1 | ]; [ | discriminate ].
  destruct (Z.ltb_spec (c_value c1) (Z.of_nat (length cc))) as [H1' | ];
    [ | discriminate ].
  simpl. intros E. inversion E. subst i1 w1. clear E.
  destruct ((1 <? Z.of_nat (String.length v2))
            || negb (isascii (char_at_0 v2)));
    [ split; [ reflexivity | intros _ i12; rewrite fatal_exits; discriminate ]
    | ].
  unfold cc_store. rewrite length_insert. split.
  - intros ->.
    destruct (Z.leb_spec 0 (c_value c1)); [ | lia ].
    destruct (Z.ltb_spec (c_value c1) (Z.of_nat (length cc))); [ | lia ].
    simpl. now rewrite list_insert_insert_eq.
  - intros Hne i12.
    destruct (Z.leb_spec 0 (c_value c2)) as [H2 | ]; [ | discriminate ].
    destruct (Z.ltb_spec (c_value c2) (Z.of_nat (length cc))) as [H2' | ];
      [ | discriminate ].
    simpl. intros E. inversion E. subst i12. clear E.
    eexists. split; [ reflexivity | ].
    cbv beta iota. rewrite length_insert.
    destruct (Z.leb_spec 0 (c_value c1)); [ | lia ].
    destruct (Z.ltb_spec (c_value c1) (Z.of_nat (length cc))); [ | lia ].
    simpl. rewrite list_insert_insert_ne by lia. reflexivity.
Qed.

(** ** Failures of a whole run *)

(** X19.  A terminal that cannot be read ends every run at once: whatever
    the arguments, valid or not, [main] reports "cannot get tty info for
    stdin" through [perror] and calls [exit (1)]; no argument is looked
    at, nothing is printed on the output stream and [tcsetattr] is not
    called. *)
Theorem main_without_terminal (av0 : string) (args : list string)
  (w : world) :
  tcgetattr_ok w = false ->
  exists w',
    main av0 args w = Exit 1 w' /\
    stderr w' = stderr w ++ "cannot get tty info for stdin" ++ ": "
                ++ errno_text w ++ nl /\
    stdout w' = stdout w /\
    applied w' = applied w /\
    tty w' = tty w /\
    progname w' = progname w.
Proof.
  intros Hget. rewrite (main_no_terminal av0 args w Hget).
  eexists. repeat split; reflexivity.
Qed.

(** X20.  The three failures of token processing are the only way a run
    with arguments can fail on a terminal that can be read and written:
    when such a run ends through [exit], some arguments were read without
    a failure, the next ones begin with a missing value, a rejected value
    or an unknown option, and the error stream carries the diagnostic of
    that failure. *)
Theorem main_exit_is_token_failure (av0 : string) (T : string)
  (rest : list string) (w w' : world) (st : Z) :
  tcgetattr_ok w = true ->
  tcsetattr_ok w = true ->
  main av0 (T :: rest) w = Exit st w' ->
  exists pre suf err arg info1,
    T :: rest = (pre ++ suf)%list /\
    main_loop pre (tty w) (with_progname av0 w)
      = Ret info1 (with_progname av0 w) /\
    token_failure suf err arg /\
    stderr w' = stderr w ++ diagnostic av0 err arg.
Proof.
  intros Hget Hset. rewrite (main_with_args av0 T rest w Hget).
  destruct (main_loop (T :: rest) (tty w) (with_progname av0 w))
    as [info' w1 | st1 w1 | ] eqn:E; [ | | discriminate ].
  - apply main_loop_world in E. subst w1.
    unfold set_settings. simpl tcsetattr_ok. rewrite Hset. discriminate.
  - intros H. inversion H. subst st1 w1. clear H.
    destruct (main_loop_exit_inv _ _ _ _ _ E)
      as (pre & suf & err & arg & info1 & Happ & Hpre & Hfail).
    exists pre, suf, err, arg, info1.
    split; [ assumption | ]. split; [ assumption | ].
    split; [ assumption | ].
    rewrite Happ, (main_loop_app pre suf _ _ _ _ Hpre) in E.
    rewrite (token_failure_exits suf err arg info1 _ Hfail) in E.
    inversion E. reflexivity.
Qed.

End Program.

(** * Concrete runs on Linux *)

#[local] Existing Instance linux_glibc.



(** [erase ab] is rejected, [erase x] is accepted. *)
Lemma change_char_accepts_witness :
  change_char erase_entry "ab" sane_termios sane_world =
    Exit 1 (with_stderr
              (diagnostic "" "invalid integer argument" "ab") sane_world)
  /\
  exists info',
    change_char erase_entry "x" sane_termios sane_world = Ret info' sane_world
    /\ c_cc info' = <[2%nat := 120]> (c_cc sane_termios)
    /\ cc_load info' 2 = Some 120.
Proof.
  split.
  - apply (change_char_accepts erase_entry "ab" sane_termios sane_world).
    left. simpl. lia.
  - apply (change_char_accepts erase_entry "x" sane_termios sane_world).
    + simpl. lia.
    + reflexivity.
    + simpl. lia.
Defined.

(** The empty value token is not one character long, and [change_char]
    accepts it: the erase character becomes NUL. *)
Lemma change_char_empty_value :
  String.length "" <> 1%nat /\
  change_char erase_entry "" sane_termios sane_world =
    Ret (mk_termios 1280 5 191 35387
           (<[2%nat := 0]> (c_cc sane_termios)) 15 15)
        sane_world.
Proof. split; [ discriminate | reflexivity ]. Qed.

(** ECHO is on in [sane_termios]; after on and off it is off. *)
Lemma set_mode_on_then_off_witness :
  exists info1 info2,
    set_mode echo_entry ON sane_termios = Some info1 /\
    set_mode echo_entry OFF info1 = Some info2 /\
    tcflag_load info2 (mode echo_entry) =
      Some (Z.land 35387 (tcflag_not (flag echo_entry))) /\
    (0 <= 35387 < 2 ^ tcflag_bits ->
     (tcflag_load info2 (mode echo_entry) = Some 35387 <->
      Z.land 35387 (flag echo_entry) = 0)).
Proof.
  apply (set_mode_on_then_off echo_entry sane_termios 35387).
  reflexivity.
Defined.

Lemma set_mode_on_then_off_changes :
  tcflag_load sane_termios (mode echo_entry) = Some 35387 /\
  exists info1 info2,
    set_mode echo_entry ON sane_termios = Some info1 /\
    set_mode echo_entry OFF info1 = Some info2 /\
    tcflag_load info2 (mode echo_entry) = Some 35379 /\
    tcflag_load info2 (mode echo_entry)
      <> tcflag_load sane_termios (mode echo_entry).
Proof.
  split; [ reflexivity | ].
  exists sane_termios, (mk_termios 1280 5 191 35379 (c_cc sane_termios) 15 15).
  repeat split; discriminate.
Qed.

Lemma cchar_directive_witness :
  exists c,
    In c cchars /\ c_name c = "erase" /\
    main_loop ["erase"] sane_termios sane_world =
      Exit 1 (with_stderr
                (stderr sane_world
                 ++ diagnostic (progname sane_world)
                      "missing argument to" "erase") sane_world) /\
    forall value rest,
      main_loop ("erase" :: value :: rest) sane_termios sane_world =
        (info' <- change_char c value sane_termios ;;
         main_loop rest info') sane_world.
Proof.
  apply (cchar_directive "erase" sane_termios sane_world).
  unfold is_cchar_name. simpl. tauto.
Defined.

Lemma flag_directive_witness :
  (exists F,
     In F table /\ name F = "echo" /\
     main_loop ["-echo"; "icrnl"] sane_termios sane_world =
       (info' <- defined (set_mode F OFF sane_termios) ;;
        main_loop ["icrnl"] info') sane_world)
  /\
  main_loop ["--echo"; "icrnl"] sane_termios sane_world =
    Exit 1 (with_stderr
              (stderr sane_world
               ++ diagnostic (progname sane_world)
                    "illegal argument" "--echo") sane_world).
Proof.
  split.
  - apply (flag_directive "-echo" ["icrnl"] sane_termios sane_world).
    + unfold is_cchar_name. simpl. intuition discriminate.
    + unfold is_flag_name. simpl. tauto.
  - apply (flag_directive "--echo" ["icrnl"] sane_termios sane_world).
    + unfold is_cchar_name. simpl. intuition discriminate.
    + unfold is_flag_name. simpl. intuition discriminate.
Defined.

Lemma show_flagset_renders_witness :
  exists word,
    tcflag_load sane_termios (mode echo_entry) = Some word /\
    match lookup "echo" with
    | Some F => rendered_flag F sane_termios
    | None => ""
    end = (if Z.land word (flag echo_entry) =? flag echo_entry
           then "echo" else "-" ++ "echo") /\
    ((Z.land word (flag echo_entry) =? flag echo_entry) = true <->
     (forall i, 0 <= i ->
        Z.testbit (flag echo_entry) i = true -> Z.testbit word i = true)).
Proof.
  apply (proj2 (show_flagset_renders sane_termios) "echo" echo_entry).
  reflexivity.
Defined.

Lemma show_charset_renders_witness :
  prints (show_charset sane_termios) tt
    "cchars: eof = ^D; eol = <undef>; erase = ^?; intr = ^C; kill = ^U; quit = ^\; susp = ^Z; "
  /\
  rendered_cchar (mk_ctable_t VERASE "erase") sane_termios = "erase = ^?; ".
Proof.
  assert (H : cchars_in_range sane_termios).
  { unfold cchars_in_range. repeat constructor; simpl; lia. }
  destruct (show_charset_renders sane_termios H) as (Hall & _ & Herase).
  split.
  - exact Hall.
  - apply Herase; [ discriminate | reflexivity ].
Defined.

Lemma change_char_frame_witness :
  exists info',
    change_char erase_entry "x" sane_termios sane_world = Ret info' sane_world
    /\ cc_load info' 2 = Some 120
    /\ (forall j, j <> 2 -> cc_load info' j = cc_load sane_termios j)
    /\ c_lflag info' = 35387.
Proof.
  destruct (change_char_frame erase_entry "x" sane_termios sane_world)
    as (info' & Hrun & Hget & Hother & _ & _ & _ & _ & Hl & _).
  - reflexivity.
  - simpl. lia.
  - exists info'. repeat split; assumption.
Defined.

Lemma show_tty_deterministic_witness :
  match show_tty sane_termios sane_world, show_tty sane_termios busy_world with
  | Ret _ w1', Ret _ w2' =>
      exists text,
        stdout w1' = stdout sane_world ++ text /\
        stdout w2' = stdout busy_world ++ text
  | Exit s1 w1', Exit s2 w2' =>
      s1 = s2 /\ stdout w1' = stdout sane_world /\
      stdout w2' = stdout busy_world
  | Undefined, Undefined => True
  | _, _ => False
  end.
Proof.
  apply (show_tty_deterministic sane_termios sane_world busy_world).
  reflexivity.
Defined.

(** ** Runs for the further properties *)

Lemma sane_termios_in_range : cchars_in_range sane_termios.
Proof. unfold cchars_in_range. repeat constructor; simpl; lia. Defined.

Lemma linux_speed_codes_distinct : List.NoDup (map fst speed_codes).
Proof. simpl. repeat (constructor; [ simpl; lia | ]). constructor. Defined.

Lemma set_mode_then_rendered_witness :
  rendered_flag echo_entry
    (mk_termios 1280 5 191 35379 (c_cc sane_termios) 15 15) = "-echo".
Proof.
  destruct (set_mode_then_rendered echo_entry OFF sane_termios
              (mk_termios 1280 5 191 35379 (c_cc sane_termios) 15 15))
    as [_ Hoff].
  - reflexivity.
  - apply Hoff.
    + unfold OFF, ON. lia.
    + simpl. lia.
Defined.

Lemma set_mode_frame_witness :
  c_cc (mk_termios 1280 5 191 35379 (c_cc sane_termios) 15 15)
    = c_cc sane_termios /\
  forall off, off <> 12 ->
    tcflag_load (mk_termios 1280 5 191 35379 (c_cc sane_termios) 15 15) off
      = tcflag_load sane_termios off.
Proof.
  destruct (set_mode_frame echo_entry OFF sane_termios
              (mk_termios 1280 5 191 35379 (c_cc sane_termios) 15 15) 35387)
    as (_ & Hoff & Hcc & _).
  - reflexivity.
  - reflexivity.
  - simpl. lia.
  - split; assumption.
Defined.

Lemma set_mode_last_wins_witness :
  set_mode echo_entry ON sane_termios ≫= set_mode echo_entry OFF
    = set_mode echo_entry OFF sane_termios /\
  set_mode echo_entry OFF sane_termios ≫= set_mode echo_entry ON
    = set_mode echo_entry ON sane_termios.
Proof.
  apply (set_mode_last_wins echo_entry sane_termios 35387).
  - reflexivity.
  - simpl. lia.
Defined.

Lemma caret_character_witness :
  Z.lxor 3 CHAR_MASK = 67 /\ Z.lxor 127 CHAR_MASK = 63.
Proof.
  split.
  - apply (proj1 (caret_character 3 eq_refl)).
  - apply (proj1 (caret_character 127 eq_refl)).
Defined.

Lemma lookup_round_trip_witness :
  lookup "echo" = Some echo_entry /\
  valid_char_opt "erase" = Some erase_entry.
Proof.
  destruct lookup_round_trip as (Hflag & Hcc & _).
  split.
  - apply (Hflag echo_entry). simpl. tauto.
  - apply (Hcc erase_entry). simpl. tauto.
Defined.

Lemma names_unambiguous_witness :
  (lookup "erase" = None /\ lookup (snd (strip_negation "erase")) = None)
  /\ valid_char_opt "-echo" = None.
Proof.
  destruct names_unambiguous as (Hcc & Hflag).
  split.
  - apply (Hcc "erase"). unfold is_cchar_name. simpl. tauto.
  - apply (Hflag "echo"). unfold is_flag_name. simpl. tauto.
Defined.

Lemma getbaud_converts_witness :
  getbaud 13 sane_world = Ret 9600 sane_world /\
  getbaud 4097 sane_world =
    Exit 1 (with_stderr ("failed to get baud speed: Success" ++ nl) sane_world).
Proof.
  split.
  - apply (getbaud_converts 13 sane_world linux_speed_codes_distinct).
    simpl. tauto.
  - apply (getbaud_converts 4097 sane_world linux_speed_codes_distinct).
    simpl. lia.
Defined.

Lemma main_display_only_witness :
  exists w',
    main "sttyl" [] sane_world = Ret 0 w' /\
    stdout w' =
      "speed 38400 baud; rows 24; cols 80;" ++ nl
      ++ "cchars: eof = ^D; eol = <undef>; erase = ^?; intr = ^C; kill = ^U; quit = ^\; susp = ^Z; "
      ++ nl ++ "iflags: icrnl " ++ nl ++ "oflags: opost "
      ++ nl ++ "cflags: -hupcl "
      ++ nl ++ "lflags: isig icanon echo echoe echok " ++ nl.
Proof.
  exists (with_stdout
            ("speed 38400 baud; rows 24; cols 80;" ++ nl
             ++ "cchars: eof = ^D; eol = <undef>; erase = ^?; intr = ^C; kill = ^U; quit = ^\; susp = ^Z; "
             ++ nl ++ "iflags: icrnl " ++ nl ++ "oflags: opost "
             ++ nl ++ "cflags: -hupcl "
             ++ nl ++ "lflags: isig icanon echo echoe echok " ++ nl)
            (with_progname "sttyl" sane_world)).
  split.
  - apply (proj2 (main_display_only "sttyl" sane_world) eq_refl).
    vm_compute. reflexivity.
  - reflexivity.
Defined.

Lemma main_applies_once_witness :
  exists w',
    (main "sttyl" ["-echo"] sane_world = Ret 0 w' /\
     tty w' = mk_termios 1280 5 191 35379 (c_cc sane_termios) 15 15 /\
     stderr w' = stderr sane_world) /\
    applied w' =
      [mk_termios 1280 5 191 35379 (c_cc sane_termios) 15 15] /\
    stdout w' = stdout sane_world.
Proof.
  apply (main_applies_once "sttyl" "-echo" [] sane_world
           (with_progname "sttyl" sane_world)
           (mk_termios 1280 5 191 35379 (c_cc sane_termios) 15 15)).
  - reflexivity.
  - reflexivity.
Defined.

Lemma main_loop_keeps_witness :
  length (c_cc (mk_termios 1280 5 191 35387
                  (<[2%nat := 120]> (c_cc sane_termios)) 15 15))
    = length (c_cc sane_termios) /\
  cc_load (mk_termios 1280 5 191 35387
             (<[2%nat := 120]> (c_cc sane_termios)) 15 15) 5
    = cc_load sane_termios 5.
Proof.
  destruct (main_loop_keeps ["erase"; "x"] sane_termios
              (mk_termios 1280 5 191 35387
                 (<[2%nat := 120]> (c_cc sane_termios)) 15 15)
              sane_world sane_world) as (Hlen & _ & _ & Hslot).
  - reflexivity.
  - split; [ exact Hlen | ].
    apply Hslot. simpl. intros c Hc.
    repeat (destruct Hc as [Hc | Hc]; [ subst c; simpl; lia | ]).
    contradiction.
Defined.

Lemma main_defined_witness :
  main "sttyl" ["erase"; "x"; "-icanon"; "foo"] sane_world <> Undefined.
Proof.
  apply (main_defined "sttyl" ["erase"; "x"; "-icanon"; "foo"] sane_world).
  exact sane_termios_in_range.
Defined.

Lemma show_tty_text_witness :
  show_tty sane_termios sane_world =
    Ret tt
      (with_stdout
         ("speed 38400 baud; rows 24; cols 80;" ++ nl
          ++ "cchars: eof = ^D; eol = <undef>; erase = ^?; intr = ^C; kill = ^U; quit = ^\; susp = ^Z; "
          ++ nl ++ "iflags: icrnl " ++ nl ++ "oflags: opost "
          ++ nl ++ "cflags: -hupcl "
          ++ nl ++ "lflags: isig icanon echo echoe echok " ++ nl)
         sane_world).
Proof.
  etransitivity.
  - apply (show_tty_text sane_termios sane_world 24 80 38400).
    + reflexivity.
    + reflexivity.
    + exact sane_termios_in_range.
  - vm_compute. reflexivity.
Defined.

Lemma show_tty_failures_witness :
  show_tty sane_termios blind_world =
    Exit 1 (with_stderr ("could not get window size" ++ nl) blind_world) /\
  show_tty fast_termios sane_world =
    Exit 1 (with_stderr ("failed to get baud speed: Success" ++ nl)
                        sane_world).
Proof.
  split.
  - apply (proj1 (show_tty_failures sane_termios blind_world)).
    reflexivity.
  - apply (proj2 (show_tty_failures fast_termios sane_world) (24, 80)).
    + reflexivity.
    + vm_compute. lia.
Defined.

Lemma main_sets_flag_witness :
  (exists w',
     main "sttyl" ["echo"] sane_world = Ret 0 w' /\
     rendered_flag echo_entry (tty w') = "echo") /\
  (exists w',
     main "sttyl" ["-echo"] sane_world = Ret 0 w' /\
     rendered_flag echo_entry (tty w') = "-echo").
Proof.
  destruct (main_sets_flag "sttyl" echo_entry sane_world) as (Hon & Hoff).
  - reflexivity.
  - reflexivity.
  - simpl. tauto.
  - split; [ exact Hon | ]. apply Hoff. simpl. lia.
Defined.

Lemma main_sets_cchar_witness :
  exists w',
    main "sttyl" ["erase"; "x"] sane_world = Ret 0 w' /\
    cc_load (tty w') 2 = Some 120 /\
    rendered_cchar erase_entry (tty w') = "erase = x; ".
Proof.
  destruct (main_sets_cchar "sttyl" erase_entry "x" sane_world)
    as (w' & Hrun & Hload & Hshow).
  - reflexivity.
  - reflexivity.
  - simpl. tauto.
  - simpl. lia.
  - reflexivity.
  - exists w'. split; [ exact Hrun | ]. split; [ exact Hload | exact Hshow ].
Defined.

Lemma set_mode_commute_witness :
  set_mode echo_entry OFF sane_termios ≫= set_mode icanon_entry ON
    = set_mode icanon_entry ON sane_termios ≫= set_mode echo_entry OFF.
Proof.
  apply (set_mode_commute echo_entry icanon_entry OFF ON sane_termios).
  - reflexivity.
  - simpl. lia.
  - simpl. lia.
Defined.

Lemma change_char_order_witness :
  change_char erase_entry "y"
    (mk_termios 1280 5 191 35387 (<[2%nat := 120]> (c_cc sane_termios)) 15 15)
    sane_world
  = change_char erase_entry "y" sane_termios sane_world.
Proof.
  apply (change_char_order erase_entry erase_entry "x" "y" sane_termios
           (mk_termios 1280 5 191 35387
              (<[2%nat := 120]> (c_cc sane_termios)) 15 15)
           sane_world sane_world).
  - reflexivity.
  - reflexivity.
Defined.

Lemma main_without_terminal_witness :
  exists w',
    main "sttyl" ["foobar"] deaf_world = Exit 1 w' /\
    stderr w' = stderr deaf_world ++ "cannot get tty info for stdin" ++ ": "
                ++ errno_text deaf_world ++ nl /\
    stdout w' = stdout deaf_world /\
    applied w' = applied deaf_world /\
    tty w' = tty deaf_world /\
    progname w' = progname deaf_world.
Proof.
  apply (main_without_terminal "sttyl" ["foobar"] deaf_world).
  reflexivity.
Defined.

Lemma main_exit_is_token_failure_witness :
  exists pre suf err arg info1,
    ["-echo"; "erase"] = (pre ++ suf)%list /\
    main_loop pre (tty sane_world) (with_progname "sttyl" sane_world)
      = Ret info1 (with_progname "sttyl" sane_world) /\
    token_failure suf err arg /\
    "sttyl: missing argument to `erase'" ++ nl
      = stderr sane_world ++ diagnostic "sttyl" err arg.
Proof.
  apply (main_exit_is_token_failure "sttyl" "-echo" ["erase"] sane_world
           (with_stderr ("sttyl: missing argument to `erase'" ++ nl)
              (with_progname "sttyl" sane_world)) 1).
  - reflexivity.
  - reflexivity.
  - reflexivity.
Defined.
